(** * io_helper.h: k-mer key codec, group partitioner and buffered record I/O

    A shallow embedding of [src/io_helper.h] and the properties of it
    that the specification states.

    Conventions of the embedding.
    - An unsigned integer of [w] bits is a [Z] in [[0, 2^w)]; every
      operation that can leave that range is followed by [wrap w].
    - A C string ([char *]) is the [list ascii] of its characters; the
      terminating NUL is the byte [zero] where an array is modelled.
    - An operation whose behaviour C++ leaves undefined (a shift by at
      least the width of its operand, an access outside an array, a use
      of a null or closed [FILE *]) yields [None].
    - A binary stream is the sequence of the whole records in it, a text
      stream the sequence of its characters.  What the constructors
      print on the console is not modelled. *)

From Stdlib Require Import ZArith Lia Ascii String List Bool.
From stdpp Require Import base option list.

Local Open Scope Z_scope.

(** ** Machine integers *)

Definition wrap (w x : Z) : Z := x mod 2 ^ w.

(** [x >> n] on an unsigned operand of [w] bits. *)
Definition shr (w x n : Z) : option Z :=
  if (0 <=? n) && (n <? w) then Some (Z.shiftr x n) else None.

(** [x << n] on an unsigned operand of [w] bits. *)
Definition shl (w x n : Z) : option Z :=
  if (0 <=? n) && (n <? w) then Some (wrap w (Z.shiftl x n)) else None.

(** An object of the 32-bit [valueType] that [sscanf("%d")] is given:
    either it holds a value or it was never assigned. *)
Inductive slot : Type :=
| Indeterminate
| Value (v : Z).

Definition INT_MIN : Z := - 2 ^ 31.
Definition INT_MAX : Z := 2 ^ 31 - 1.

(** ** Characters *)

Definition NUL : ascii := Ascii.zero.
Definition newline : ascii := ascii_of_nat 10.

Definition chr_eqb (a b : ascii) : bool := Ascii.eqb a b.

Definition isspace (c : ascii) : bool :=
  let n := Z.of_nat (nat_of_ascii c) in
  (n =? 32) || ((9 <=? n) && (n <=? 13)).

Definition isdigit (c : ascii) : bool :=
  let n := Z.of_nat (nat_of_ascii c) in
  (48 <=? n) && (n <=? 57).

Definition digit_value (c : ascii) : Z := Z.of_nat (nat_of_ascii c) - 48.

(** ** [sscanf(s, "%d", &tv)]

    Leading white space is skipped, an optional sign is read, then the
    longest run of decimal digits.  Nothing is stored when no digit is
    found; the conversion of a number that an [int] cannot hold is not
    defined by the C library and is treated as storing nothing. *)

Fixpoint skip_space (s : list ascii) : list ascii :=
  match s with
  | c :: s' => if isspace c then skip_space s' else s
  | [] => []
  end.

Fixpoint read_digits (s : list ascii) (acc : Z) : Z :=
  match s with
  | c :: s' => if isdigit c then read_digits s' (10 * acc + digit_value c) else acc
  | [] => acc
  end.

Definition read_sign (s : list ascii) : bool * list ascii :=
  match s with
  | c :: s' =>
      if chr_eqb c "-" then (true, s')
      else if chr_eqb c "+" then (false, s')
      else (false, s)
  | [] => (false, [])
  end.

Definition sscanf_d (s : list ascii) (tv : slot) : slot :=
  let '(neg, body) := read_sign (skip_space s) in
  match body with
  | c :: _ =>
      if isdigit c then
        let n := read_digits body 0 in
        let n := if neg then - n else n in
        if (INT_MIN <=? n) && (n <=? INT_MAX) then Value n else tv
      else tv
  | [] => tv
  end.

(** ** The [IOHelper] interface *)

Class IOHelper (H : Type) : Type := {
  (** [convert(s, T, V)]: the result and the two output objects. *)
  convert : H -> list ascii -> Z -> slot -> bool * Z * slot;
  (** [convert(s, T)]: the variant that skips the value. *)
  convert_key : H -> list ascii -> Z -> bool * Z;
  (** [splitgrp(key, grp, keyInGroup)]: the two outputs. *)
  splitgrp : H -> Z -> option (Z * Z);
  (** [combgrp(key, grp, keyInGroup)]: the output [key]. *)
  combgrp : H -> Z -> Z -> option Z
}.

(** ** [ConstantLengthKmerHelper<keyType, valueType>]

    [W] is the number of bits of the unsigned [keyType]. *)

Module ConstantLengthKmerHelper.
Section Helper.

Variable W : Z.

Record t : Type := mk {
  kmerlength : Z;   (* uint8_t *)
  splitbit : Z      (* uint8_t *)
}.

(** The constructor: both arguments are [uint8_t]. *)
Definition new (_kmerlength _splitbit : Z) : t :=
  mk (wrap 8 _kmerlength) (wrap 8 _splitbit).

Definition is_ACGT (c : ascii) : bool :=
  chr_eqb c "A" || chr_eqb c "C" || chr_eqb c "T" || chr_eqb c "G".

Definition incr (ret : Z) : Z := wrap W (ret + 1).

(** The inner [switch], whose cases fall through: ['T'] adds three,
    ['G'] two, ['C'] one. *)
Definition add_symbol (c : ascii) (ret : Z) : Z :=
  if chr_eqb c "T" then incr (incr (incr ret))
  else if chr_eqb c "G" then incr (incr ret)
  else if chr_eqb c "C" then incr ret
  else ret.

(** The [while] loop: the key read so far and the rest of the line.
    [ret <<= 2] shifts by less than the width of any key type. *)
Fixpoint scan (s : list ascii) (ret : Z) : Z * list ascii :=
  match s with
  | c :: s' =>
      if is_ACGT c then scan s' (add_symbol c (wrap W (Z.shiftl ret 2)))
      else (ret, s)
  | [] => (ret, [])
  end.

Definition convert (s : list ascii) (k : Z) (v : slot) : bool * Z * slot :=
  match s with
  | c :: _ =>
      if is_ACGT c then
        let '(ret, rest) := scan s 0 in
        let tv := sscanf_d rest Indeterminate in
        (true, ret, tv)
      else (false, k, v)
  | [] => (false, k, v)
  end.

Definition convert_key (s : list ascii) (k : Z) : bool * Z :=
  let '(r, k', _) := convert s k Indeterminate in (r, k').

Definition splitgrp (h : t) (key : Z) : option (Z * Z) :=
  let mvcnt := 2 * kmerlength h - splitbit h in
  high ← shr W key mvcnt;
  let grp := wrap 32 high in
  lowmask ← shl W 1 mvcnt;
  let keyInGroup := Z.land key (wrap W (lowmask - 1)) in
  Some (grp, keyInGroup).

Definition combgrp (h : t) (grp keyInGroup : Z) : option Z :=
  let key := wrap W grp in
  key ← shl W key (2 * kmerlength h - splitbit h);
  Some (Z.lor key keyInGroup).

End Helper.
End ConstantLengthKmerHelper.

#[global] Instance ConstantLengthKmerHelper_IOHelper (W : Z) :
  IOHelper ConstantLengthKmerHelper.t := {
  convert := fun _ => ConstantLengthKmerHelper.convert W;
  convert_key := fun _ => ConstantLengthKmerHelper.convert_key W;
  splitgrp := ConstantLengthKmerHelper.splitgrp W;
  combgrp := ConstantLengthKmerHelper.combgrp W
}.

(** ** C strings in character arrays *)

(** The string that a [char *] into [mem] denotes: the characters
    before the first NUL. *)
Fixpoint c_str (mem : list ascii) : list ascii :=
  match mem with
  | c :: mem' => if chr_eqb c NUL then [] else c :: c_str mem'
  | [] => []
  end.

Definition strlen (mem : list ascii) : nat := length (c_str mem).

(** [strcpy(dst, src)]: the characters of [src] and the terminating NUL
    are stored at the start of [dst]; undefined when they do not fit. *)
Definition strcpy (dst src : list ascii) : option (list ascii) :=
  let s := c_str src in
  if (length s <? length dst)%nat
  then Some (s ++ NUL :: drop (S (length s)) dst)
  else None.

(** The first lines of the three constructors: copy [fname] into a local
    array, overwrite a final newline by NUL, and hand the array to
    [fopen].  [stack] is the content of the uninitialised local array.
    The index [strlen(buf)-1] is a [size_t]: on the empty string it
    wraps around and the access falls outside the array. *)
Definition open_name (stack fname : list ascii) : option (list ascii) :=
  buf ← strcpy stack fname;
  let n := strlen buf in
  if (n =? 0)%nat then None
  else
    c ← buf !! (n - 1)%nat;
    let buf := if chr_eqb c newline then <[(n - 1)%nat := NUL]> buf else buf in
    Some (c_str buf).

(** ** [FILE *]

    A stream of items of type [A]: a null pointer, an open stream with
    the data written so far (output) or not yet read (input), or a
    stream that [fclose] has released. *)
Inductive FILE (A : Type) : Type :=
| Null
| Open (data : list A)
| Closed (data : list A).
Arguments Null {A}.
Arguments Open {A} data.
Arguments Closed {A} data.

Definition fwrite {A} (items : list A) (f : FILE A) : option (FILE A) :=
  match f with
  | Open data => Some (Open (data ++ items))
  | _ => None
  end.

(** [fread(buf, size, n, f)]: the whole items read (at most [n]) and
    the stream left. *)
Definition fread {A} (n : nat) (f : FILE A) : option (list A * FILE A) :=
  match f with
  | Open data => Some (take n data, Open (drop n data))
  | _ => None
  end.

Definition fclose {A} (f : FILE A) : option (FILE A) :=
  match f with
  | Open data => Some (Closed data)
  | _ => None
  end.

(** [fgets(buf, size, f)] reads at most [size - 1] characters and stops
    after a newline; it returns a null pointer when nothing is left. *)
Fixpoint fgets_chars (n : nat) (data : list ascii) : list ascii * list ascii :=
  match n, data with
  | S n', c :: data' =>
      if chr_eqb c newline then ([c], data')
      else let '(line, rest) := fgets_chars n' data' in (c :: line, rest)
  | _, _ => ([], data)
  end.

Definition fgets (size : nat) (f : FILE ascii)
  : option (option (list ascii) * FILE ascii) :=
  match f with
  | Open [] => Some (None, f)
  | Open data =>
      let '(line, rest) := fgets_chars (size - 1) data in
      Some (Some line, Open rest)
  | _ => None
  end.

(** ** [KmerFileReader<keyType, valueType>] *)

Module KmerFileReader.
Section Reader.

Context {H : Type} `{IOHelper H}.

Record t : Type := mk {
  f : FILE ascii;
  helper : H
}.

Definition new (fopen : list ascii -> string -> FILE ascii)
    (stack fname : list ascii) (_helper : H) : option t :=
  buf ← open_name stack fname;
  Some (mk (fopen buf "r"%string) _helper).

Definition close (r : t) : option t :=
  f' ← fclose (f r);
  Some (mk f' (helper r)).

Definition getNext (r : t) (T : Z) (V : slot) : option (t * (bool * Z * slot)) :=
  '(line, f') ← fgets 1024 (f r);
  match line with
  | None => Some (mk f' (helper r), (false, T, V))
  | Some buf => Some (mk f' (helper r), convert (helper r) buf T V)
  end.

End Reader.
Arguments t : clear implicits.
End KmerFileReader.

(** ** [KVpair], [BinaryKmerReader<KVpair>] and [BinaryKmerWriter<KVpair>]

    The readers and writers copy whole records; [KV] is their record
    type, and a binary stream is a sequence of such records. *)

Record KVpair (keyType valueType : Type) : Type := mkKVpair {
  k : keyType;
  v : valueType
}.
Arguments mkKVpair {keyType valueType} k v.

(** What the caller of a [bool] function receives: a value, or nothing
    when control flows off the end of the function body. *)
Inductive retval : Type :=
| Ret (b : bool)
| NoReturn.

Definition buflen : nat := 16.
Definition bufsize : nat := 1024.

Module BinaryKmerReader.
Section Reader.

Variable KV : Type.

Record t : Type := mk {
  f : FILE KV;
  buf : list KV;
  curr : nat;
  max : nat
}.

(** The object a constructor leaves when [fopen] returned [file];
    [buf0] is the content of the uninitialised member array. *)
Definition init (file : FILE KV) (buf0 : list KV) : t :=
  mk file buf0 0%nat 0%nat.

Definition new (fopen : list ascii -> string -> FILE KV)
    (stack fname : list ascii) (buf0 : list KV) : option t :=
  name ← open_name stack fname;
  Some (init (fopen name "rb"%string) buf0).

(** The two statements after the [if]: copy [buf[curr]] out and advance.
    No [return] follows them. *)
Definition copy_out (r : t) : option (t * KV * retval) :=
  x ← buf r !! curr r;
  Some (mk (f r) (buf r) (S (curr r)) (max r), x, NoReturn).

Definition getNext (r : t) (ret : KV) : option (t * KV * retval) :=
  if (curr r =? max r)%nat then
    '(items, f') ← fread buflen (f r);
    let buf' := items ++ drop (length items) (buf r) in
    let max' := length items in
    if (max' =? 0)%nat then Some (mk f' buf' (curr r) max', ret, Ret false)
    else copy_out (mk f' buf' 0%nat max')
  else copy_out r.

(** The caller's loop [while (reader.getNext(&kv)) ...]: the records
    handed out until a call returns [false], and the reader it leaves.
    The loop tests the value that the call returns; after a call that
    returns nothing that test has no defined behaviour. *)
Fixpoint read_all (fuel : nat) (r : t) (ret : KV) : option (list KV * t) :=
  match fuel with
  | O => None
  | S fuel' =>
      match getNext r ret with
      | None => None
      | Some (_, _, NoReturn) => None
      | Some (r', _, Ret false) => Some ([], r')
      | Some (r', x, Ret true) =>
          '(l, r'') ← read_all fuel' r' x;
          Some (x :: l, r'')
      end
  end.

(** [n] calls of [getNext] one after the other on the same output
    object, whatever they return: the output object and the returned
    value after each call, and the reader left. *)
Fixpoint getNext_seq (n : nat) (r : t) (ret : KV)
  : option (list (KV * retval) * t) :=
  match n with
  | O => Some ([], r)
  | S n' =>
      '(r', x, rv) ← getNext r ret;
      '(l, r'') ← getNext_seq n' r' x;
      Some ((x, rv) :: l, r'')
  end.

(** The records a reader has still to hand out: those between the
    cursor and [max] in the buffer, then those left in the stream. *)
Definition pending (r : t) : list KV :=
  take (max r - curr r) (drop (curr r) (buf r))
  ++ match f r with Open data => data | _ => [] end.

Definition consistent (r : t) : Prop :=
  (exists data, f r = Open data)
  /\ (curr r <= max r)%nat /\ (max r <= buflen)%nat
  /\ length (buf r) = bufsize.

End Reader.
Arguments mk {KV} f buf curr max.
Arguments f {KV} t.
Arguments buf {KV} t.
Arguments curr {KV} t.
Arguments max {KV} t.
Arguments init {KV} file buf0.
Arguments new {KV} fopen stack fname buf0.
Arguments copy_out {KV} r.
Arguments getNext {KV} r ret.
Arguments read_all {KV} fuel r ret.
Arguments getNext_seq {KV} n r ret.
Arguments pending {KV} r.
Arguments consistent {KV} r.
End BinaryKmerReader.

Module BinaryKmerWriter.
Section Writer.

Variable KV : Type.

Record t : Type := mk {
  f : FILE KV;
  curr : nat;
  buf : list KV
}.

Definition init (file : FILE KV) (buf0 : list KV) : t :=
  mk file 0%nat buf0.

Definition new (fopen : list ascii -> string -> FILE KV)
    (stack fname : list ascii) (buf0 : list KV) : option t :=
  name ← open_name stack fname;
  Some (init (fopen name "wb"%string) buf0).

Definition write (w : t) (p : KV) : option t :=
  if (curr w <? length (buf w))%nat then
    let buf' := <[curr w := p]> (buf w) in
    let curr' := S (curr w) in
    if (curr' =? buflen)%nat then
      f' ← fwrite (take buflen buf') (f w);
      Some (mk f' 0%nat buf')
    else Some (mk (f w) curr' buf')
  else None.

Definition finish (w : t) : option t :=
  f' ← fwrite (take (curr w) (buf w)) (f w);
  f'' ← fclose f';
  Some (mk f'' 0%nat (buf w)).

(** The caller's loop that writes the records of [l] in order. *)
Fixpoint write_all (w : t) (l : list KV) : option t :=
  match l with
  | [] => Some w
  | p :: l' => w' ← write w p; write_all w' l'
  end.

(** The records a writer has accepted: those in the stream, then those
    still in the buffer. *)
Definition accepted (w : t) : list KV :=
  match f w with Open data => data | _ => [] end ++ take (curr w) (buf w).

Definition consistent (w : t) : Prop :=
  (exists data, f w = Open data)
  /\ (curr w < buflen)%nat
  /\ length (buf w) = bufsize.

End Writer.
Arguments mk {KV} f curr buf.
Arguments f {KV} t.
Arguments curr {KV} t.
Arguments buf {KV} t.
Arguments init {KV} file buf0.
Arguments new {KV} fopen stack fname buf0.
Arguments write {KV} w p.
Arguments finish {KV} w.
Arguments write_all {KV} w l.
Arguments accepted {KV} w.
Arguments consistent {KV} w.
End BinaryKmerWriter.

(** ** Stream insertion and extraction on [std::stringstream] *)

Definition digit_char (d : Z) : ascii := ascii_of_nat (48 + Z.to_nat d).

(** [ss << n] for an unsigned integer: its decimal digits. *)
Fixpoint uint_digits (fuel : nat) (n : Z) (acc : list ascii) : list ascii :=
  match fuel with
  | O => acc
  | S fuel' =>
      let acc' := digit_char (n mod 10) :: acc in
      if n <? 10 then acc' else uint_digits fuel' (n / 10) acc'
  end.

(** A [uint64_t] has at most twenty decimal digits. *)
Definition put_uint (n : Z) : list ascii := uint_digits 20 n [].

(** Exactly [width] decimal digits of [n], the least significant last. *)
Fixpoint fixed_digits (width : nat) (n : Z) (acc : list ascii) : list ascii :=
  match width with
  | O => acc
  | S width' => fixed_digits width' (n / 10) (digit_char (n mod 10) :: acc)
  end.

Fixpoint strip_zeros (l : list ascii) : list ascii :=
  match l with
  | [] => []
  | c :: l' =>
      match strip_zeros l' with
      | [] => if chr_eqb c "0" then [] else [c]
      | r => c :: r
      end
  end.

(** The conversion of a [uint64_t] to [double]: rounding to 53
    significant bits, ties to even.  The result is again an integer. *)
Definition to_double (n : Z) : Z :=
  if n <? 2 ^ 53 then n
  else
    let e := Z.log2 n - 52 in
    let q := n / 2 ^ e in
    let r := n mod 2 ^ e in
    let q' := if (2 ^ (e - 1) <? r) || ((2 ^ (e - 1) =? r) && Z.odd q)
              then q + 1 else q in
    q' * 2 ^ e.

(** [num / den] rounded to the nearest integer, ties to even. *)
Definition round_div (num den : Z) : Z :=
  let q := num / den in
  let r := num mod den in
  if (den <? 2 * r) || ((den =? 2 * r) && Z.odd q) then q + 1 else q.

(** The largest [x] with [10^x * den <= num], counted up from [x]. *)
Fixpoint exp10 (fuel : nat) (num den x : Z) : Z :=
  match fuel with
  | O => x
  | S fuel' => if 10 * den <=? num then exp10 fuel' num (10 * den) (x + 1) else x
  end.

(** [ss << std::setprecision(prec) << d] for a [double] [d = num / den]
    that is at least one, in the default float format (that of
    [printf("%g")]): [prec] significant digits, trailing zeros removed,
    fixed notation while the decimal exponent is below [prec] and
    scientific notation from there on. *)
Definition put_double (prec : Z) (num den : Z) : list ascii :=
  let x := exp10 40 num den 0 in
  let m := if prec - 1 <=? x
           then round_div num (den * 10 ^ (x - (prec - 1)))
           else round_div (num * 10 ^ (prec - 1 - x)) den in
  let '(m, x) := if 10 ^ prec <=? m then (m / 10, x + 1) else (m, x) in
  if x <? prec then
    let decimals := prec - 1 - x in
    let frac := strip_zeros (fixed_digits (Z.to_nat decimals) (m mod 10 ^ decimals) []) in
    put_uint (m / 10 ^ decimals) ++
      match frac with [] => [] | _ => "."%char :: frac end
  else
    let frac := strip_zeros (fixed_digits (Z.to_nat (prec - 1)) (m mod 10 ^ (prec - 1)) []) in
    put_uint (m / 10 ^ (prec - 1)) ++
      match frac with [] => [] | _ => "."%char :: frac end ++
      "e"%char :: "+"%char :: fixed_digits 2 x [].

(** [ss >> s]: white space is skipped, then characters are taken up to
    the next white space. *)
Fixpoint take_word (l : list ascii) : list ascii :=
  match l with
  | c :: l' => if isspace c then [] else c :: take_word l'
  | [] => []
  end.

Definition extract (ss : list ascii) : list ascii := take_word (skip_space ss).

(** ** [human] *)

Definition human (word : Z) : string :=
  let ss :=
    if word <=? 1024 then put_uint word
    else if word <=? 10240 then put_double 2 (to_double word) 1024 ++ ["K"%char]
    else if word <=? 1048576 then put_uint (word / 1024) ++ ["K"%char]
    else if word <=? 10485760 then put_double 6 (to_double word) 1048576 ++ ["M"%char]
    else if word <=? Z.shiftl 1048576 10 then put_uint (word / 1048576) ++ ["M"%char]
    else put_double 6 (to_double word) (Z.shiftl 1 30) ++ ["G"%char] in
  string_of_list_ascii (extract ss).

Definition cstr (s : string) : list ascii := list_ascii_of_string s.

(** ** The specification's vocabulary *)

(** value(A)=0, value(C)=1, value(G)=2, value(T)=3. *)
Definition symbol_value (c : ascii) : Z :=
  if chr_eqb c "A" then 0
  else if chr_eqb c "C" then 1
  else if chr_eqb c "G" then 2
  else if chr_eqb c "T" then 3
  else 0.

(** The sum of [value(s_i) * 4^(L-1-i)] over a run [s_0 .. s_(L-1)]. *)
Fixpoint kmer_sum (run : list ascii) : Z :=
  match run with
  | [] => 0
  | c :: run' => symbol_value c * 4 ^ Z.of_nat (length run') + kmer_sum run'
  end.

(** The number that a run of decimal digits denotes. *)
Fixpoint decimal_sum (digits : list ascii) : Z :=
  match digits with
  | [] => 0
  | d :: digits' => digit_value d * 10 ^ Z.of_nat (length digits') + decimal_sum digits'
  end.

(** An integer token: an optional sign and a run of digits. *)
Inductive sign : Type := NoSign | Plus | Minus.

Definition sign_chars (sg : sign) : list ascii :=
  match sg with
  | NoSign => []
  | Plus => ["+"%char]
  | Minus => ["-"%char]
  end.

Definition signed (sg : sign) (n : Z) : Z :=
  match sg with Minus => - n | _ => n end.

(** The tail of a line after a token: it does not go on with a digit. *)
Definition ends_token (tail : list ascii) : bool :=
  match tail with
  | c :: _ => negb (isdigit c)
  | [] => true
  end.

(** A line that [convert] rejects: empty, or starting outside A/C/G/T. *)
Definition bad_start (s : list ascii) : bool :=
  match s with
  | c :: _ => negb (ConstantLengthKmerHelper.is_ACGT c)
  | [] => true
  end.

(** A path without one final newline. *)
Definition strip_newline (path : list ascii) : list ascii :=
  match rev path with
  | c :: r => if chr_eqb c newline then rev r else path
  | [] => path
  end.

Definition no_NUL (s : list ascii) : bool :=
  forallb (fun c => negb (chr_eqb c NUL)) s.

Definition no_newline (s : list ascii) : bool :=
  forallb (fun c => negb (chr_eqb c newline)) s.

Definition no_space (s : list ascii) : bool :=
  forallb (fun c => negb (isspace c)) s.

(** A directory that holds the single file [data.bin]: opening it for
    writing truncates it, and no other name can be opened. *)
Definition one_file_fs {A : Type} (content : list A)
    (name : list ascii) (mode : string) : FILE A :=
  if String.eqb (string_of_list_ascii name) "data.bin"
  then if String.eqb mode "wb" then Open [] else Open content
  else Null.

Definition carriage_return : ascii := ascii_of_nat 13.

(** [l] is a decimal numeral of [n]. *)
Definition decimal_of (n : Z) (l : list ascii) : Prop :=
  l <> [] /\ forallb isdigit l = true /\ decimal_sum l = n.

(** ** Sample data for the concrete runs *)

Definition sample_stack : list ascii := repeat "x"%char 1024.
Definition sample_record : KVpair Z Z := mkKVpair 27 5.
Definition blank_record : KVpair Z Z := mkKVpair 0 0.
Definition stale_record : KVpair Z Z := mkKVpair 99 99.
Definition blank_buf : list (KVpair Z Z) := repeat blank_record 1024.
Definition stale_buf : list (KVpair Z Z) :=
  repeat blank_record 16 ++ repeat stale_record 1008.
Definition sample_records : list (KVpair Z Z) :=
  map (fun i => mkKVpair (Z.of_nat i) (2 * Z.of_nat i)) (seq 0 17).
Definition sample_helper : ConstantLengthKmerHelper.t :=
  ConstantLengthKmerHelper.new 4 2.
Definition long_line : list ascii :=
  cstr "ACGT" ++ repeat " "%char 1030 ++ cstr "7" ++ [newline].
Definition long_line_rest : list ascii :=
  repeat " "%char 11 ++ cstr "7" ++ [newline].

(** ** Destructors and the callers' loop over a text file *)

(** [~KmerFileReader()] calls [close()]. *)
Definition KmerFileReader_destroy {H : Type} (r : KmerFileReader.t H)
  : option (KmerFileReader.t H) :=
  KmerFileReader.close r.

(** [~BinaryKmerReader()] calls [fclose(f)]. *)
Definition BinaryKmerReader_destroy {KV : Type} (r : BinaryKmerReader.t KV)
  : option (BinaryKmerReader.t KV) :=
  f' ← fclose (BinaryKmerReader.f r);
  Some (BinaryKmerReader.mk f' (BinaryKmerReader.buf r)
          (BinaryKmerReader.curr r) (BinaryKmerReader.max r)).

(** The caller's loop [while (reader.getNext(&k, &v)) ...] over a text
    file: the pairs handed out until a call returns [false]. *)
Fixpoint read_lines {H : Type} `{IOHelper H} (fuel : nat)
    (r : KmerFileReader.t H) (T : Z) (V : slot)
  : option (list (Z * slot) * KmerFileReader.t H) :=
  match fuel with
  | O => None
  | S fuel' =>
      match KmerFileReader.getNext r T V with
      | None => None
      | Some (r', (false, _, _)) => Some ([], r')
      | Some (r', (true, T', V')) =>
          '(l, r'') ← read_lines fuel' r' T' V';
          Some ((T', V') :: l, r'')
      end
  end.

(** A line of the text format: the symbols, the separator, and the
    count as a sign and digits. *)
Record text_line : Type := mk_text_line {
  tl_run : list ascii;
  tl_sep : list ascii;
  tl_sign : sign;
  tl_digits : list ascii
}.

Definition line_chars (e : text_line) : list ascii :=
  tl_run e ++ tl_sep e ++ sign_chars (tl_sign e) ++ tl_digits e ++ [newline].

Definition line_record (e : text_line) : Z * slot :=
  (kmer_sum (tl_run e), Value (signed (tl_sign e) (decimal_sum (tl_digits e)))).

(** A line that fits the key type, the [int] value and the line buffer. *)
Definition good_line (W : Z) (e : text_line) : Prop :=
  tl_run e <> []
  /\ forallb ConstantLengthKmerHelper.is_ACGT (tl_run e) = true
  /\ 2 * Z.of_nat (length (tl_run e)) <= W
  /\ forallb isspace (tl_sep e) = true
  /\ no_newline (tl_sep e) = true
  /\ tl_digits e <> []
  /\ forallb isdigit (tl_digits e) = true
  /\ INT_MIN <= signed (tl_sign e) (decimal_sum (tl_digits e)) <= INT_MAX
  /\ (length (line_chars e) < 1024)%nat.

Definition sample_lines : list text_line :=
  [mk_text_line (cstr "ACGT") (cstr " ") NoSign (cstr "17");
   mk_text_line (cstr "TTTT") (cstr "  ") Minus (cstr "3")].

(** * Properties *)

(** ** Group partitioner *)

Section Partition.

Import ConstantLengthKmerHelper.

Lemma wrap_small w x : 0 <= x < 2 ^ w -> wrap w x = x.
Proof. intros Hx. unfold wrap. now apply Z.mod_small. Qed.

Lemma shr_defined w x n : 0 <= n < w -> shr w x n = Some (Z.shiftr x n).
Proof.
  intros Hn. unfold shr.
  destruct (Z.leb_spec 0 n), (Z.ltb_spec n w); simpl; trivial; lia.
Qed.

Lemma shl_defined w x n : 0 <= n < w -> shl w x n = Some (wrap w (Z.shiftl x n)).
Proof.
  intros Hn. unfold shl.
  destruct (Z.leb_spec 0 n), (Z.ltb_spec n w); simpl; trivial; lia.
Qed.

Lemma land_lowmask key n : 0 <= n -> Z.land key (2 ^ n - 1) = key mod 2 ^ n.
Proof.
  intros Hn. rewrite <- Z.land_ones by trivial.
  now rewrite Z.ones_equiv, <- Z.sub_1_r.
Qed.

(** A group id shifted up and a remainder below it do not overlap, so
    [|] adds them. *)
Lemma lor_shiftl_low g r n :
  0 <= n -> 0 <= r < 2 ^ n -> Z.lor (g * 2 ^ n) r = g * 2 ^ n + r.
Proof.
  intros Hn Hr. rewrite <- (Z.shiftl_mul_pow2 g n) by trivial.
  assert (Hdisj : Z.land (Z.shiftl g n) r = 0).
  { apply Z.bits_inj'. intros i Hi.
    rewrite Z.land_spec, Z.bits_0.
    destruct (Z.lt_ge_cases i n) as [Hlt | Hge].
    - rewrite Z.shiftl_spec_low by trivial. reflexivity.
    - replace (Z.testbit r i) with false; [apply andb_false_r |].
      symmetry. destruct (Z.eq_dec r 0) as [-> | Hr0]; [apply Z.bits_0 |].
      apply Z.bits_above_log2; [lia |].
      apply Z.lt_le_trans with n; [| trivial].
      apply Z.log2_lt_pow2; lia. }
  rewrite <- Z.lxor_lor by trivial.
  now rewrite <- Z.add_nocarry_lxor by trivial.
Qed.

Lemma pow4 L : 0 <= L -> 4 ^ L = 2 ^ (2 * L).
Proof. intros HL. now rewrite Z.pow_mul_r by lia. Qed.

Lemma split_defined W L B key :
  0 <= L <= 255 -> 0 <= B <= 2 * L -> 2 * L - B < W -> B <= 32 ->
  0 <= key < 4 ^ L ->
  splitgrp W (new L B) key
  = Some (key / 2 ^ (2 * L - B), key mod 2 ^ (2 * L - B)).
Proof.
  intros HL HB HW HB32 Hkey.
  rewrite pow4 in Hkey by lia.
  unfold splitgrp, new. cbn [kmerlength splitbit].
  rewrite !(wrap_small 8) by (change (2 ^ 8) with 256; lia).
  set (mv := 2 * L - B) in *.
  assert (Hmv : 0 <= mv < W) by (subst mv; lia).
  rewrite shr_defined, shl_defined by trivial. cbn [mbind option_bind].
  rewrite Z.shiftr_div_pow2, Z.shiftl_1_l by lia.
  assert (Hpw : 0 < 2 ^ mv < 2 ^ W).
  { split; [apply Z.pow_pos_nonneg; lia | apply Z.pow_lt_mono_r; lia]. }
  assert (Hhigh : 0 <= key / 2 ^ mv < 2 ^ B).
  { split; [apply Z.div_pos; lia |].
    apply Z.div_lt_upper_bound; [lia |].
    rewrite <- Z.pow_add_r by lia.
    replace (mv + B) with (2 * L) by (subst mv; lia). lia. }
  assert (H32 : 2 ^ B <= 2 ^ 32) by (apply Z.pow_le_mono_r; lia).
  rewrite (wrap_small 32) by lia.
  rewrite (wrap_small W (2 ^ mv)) by lia.
  rewrite (wrap_small W (2 ^ mv - 1)) by lia.
  now rewrite land_lowmask by lia.
Qed.

Lemma comb_defined W L B grp kig :
  0 <= L <= 255 -> 0 <= B <= 2 * L -> 2 * L <= W -> B <= 32 ->
  2 * L - B < W ->
  0 <= grp < 2 ^ B -> 0 <= kig < 2 ^ (2 * L - B) ->
  combgrp W (new L B) grp kig = Some (grp * 2 ^ (2 * L - B) + kig)
  /\ 0 <= grp * 2 ^ (2 * L - B) + kig < 4 ^ L.
Proof.
  intros HL HB HW HB32 Hlt Hgrp Hkig.
  rewrite pow4 by lia.
  unfold combgrp, new. cbn [kmerlength splitbit].
  rewrite !(wrap_small 8) by (change (2 ^ 8) with 256; lia).
  set (mv := 2 * L - B) in *.
  assert (Hsplit : 2 ^ (2 * L) = 2 ^ B * 2 ^ mv).
  { rewrite <- Z.pow_add_r by (subst mv; lia). f_equal. subst mv; lia. }
  assert (HWL : 2 ^ (2 * L) <= 2 ^ W) by (apply Z.pow_le_mono_r; lia).
  assert (HBW : 2 ^ B <= 2 ^ W) by (apply Z.pow_le_mono_r; lia).
  assert (Hpw : 0 < 2 ^ mv) by (apply Z.pow_pos_nonneg; subst mv; lia).
  assert (Hprod : 0 <= grp * 2 ^ mv) by (apply Z.mul_nonneg_nonneg; lia).
  assert (Hrange : 0 <= grp * 2 ^ mv + kig < 2 ^ (2 * L)) by nia.
  rewrite (wrap_small W grp) by lia.
  rewrite shl_defined by (subst mv; lia). cbn [mbind option_bind].
  rewrite Z.shiftl_mul_pow2 by (subst mv; lia).
  rewrite (wrap_small W) by lia.
  rewrite lor_shiftl_low by (subst mv; lia).
  split; [reflexivity | exact Hrange].
Qed.

End Partition.

(** C1, as the code has it.  For a helper built with kmerlength [L] and
    splitbit [B] over a key type of [W] bits, with [0 <= B <= 2L <= W],
    [B <= 32] (the group id is a [uint32_t]) and [2L - B < W] (the shift
    count is below the width of the key type): [splitgrp] maps every key
    of [[0, 4^L)] to [grp = key >> (2L-B)] in [[0, 2^B)] and
    [keyInGroup = key & ((1 << (2L-B)) - 1)] in [[0, 2^(2L-B))], and
    [combgrp] maps that pair back to the key; conversely [combgrp] maps
    every pair of these ranges to a key of [[0, 4^L)] that [splitgrp]
    maps back to the pair. *)
Theorem splitgrp_combgrp_bijection (W L B : Z) :
  0 <= L <= 255 -> 0 <= B <= 2 * L -> 2 * L <= W ->
  B <= 32 -> 2 * L - B < W ->
  let h := ConstantLengthKmerHelper.new L B in
  let mvcnt := 2 * L - B in
  (forall key, 0 <= key < 4 ^ L ->
     exists grp keyInGroup,
       ConstantLengthKmerHelper.splitgrp W h key = Some (grp, keyInGroup)
       /\ grp = Z.shiftr key mvcnt
       /\ keyInGroup = Z.land key (Z.shiftl 1 mvcnt - 1)
       /\ 0 <= grp < 2 ^ B
       /\ 0 <= keyInGroup < 2 ^ mvcnt
       /\ ConstantLengthKmerHelper.combgrp W h grp keyInGroup = Some key)
  /\
  (forall grp keyInGroup, 0 <= grp < 2 ^ B -> 0 <= keyInGroup < 2 ^ mvcnt ->
     exists key,
       ConstantLengthKmerHelper.combgrp W h grp keyInGroup = Some key
       /\ 0 <= key < 4 ^ L
       /\ ConstantLengthKmerHelper.splitgrp W h key = Some (grp, keyInGroup)).
Proof.
  intros HL HB HW HB32 Hlt h mvcnt. subst h.
  assert (Hmv : 0 <= mvcnt) by (subst mvcnt; lia).
  assert (Hpw : 0 < 2 ^ mvcnt) by (apply Z.pow_pos_nonneg; lia).
  split.
  - intros key Hkey.
    exists (key / 2 ^ mvcnt), (key mod 2 ^ mvcnt).
    assert (Hr : 0 <= key mod 2 ^ mvcnt < 2 ^ mvcnt) by (apply Z.mod_pos_bound; lia).
    assert (Hg : 0 <= key / 2 ^ mvcnt < 2 ^ B).
    { split; [apply Z.div_pos; lia |].
      apply Z.div_lt_upper_bound; [lia |].
      rewrite <- Z.pow_add_r by lia.
      replace (mvcnt + B) with (2 * L) by (subst mvcnt; lia).
      rewrite <- pow4 by lia. lia. }
    split; [now apply split_defined |].
    split; [now rewrite Z.shiftr_div_pow2 |].
    split; [now rewrite Z.shiftl_1_l, land_lowmask |].
    split; [exact Hg |]. split; [exact Hr |].
    destruct (comb_defined W L B _ _ HL HB HW HB32 Hlt Hg Hr) as [-> _].
    f_equal. fold mvcnt.
    pose proof (Z.div_mod key (2 ^ mvcnt)). lia.
  - intros grp kig Hg Hr.
    destruct (comb_defined W L B _ _ HL HB HW HB32 Hlt Hg Hr) as [Hc Hrange].
    exists (grp * 2 ^ mvcnt + kig).
    split; [exact Hc |]. split; [exact Hrange |].
    rewrite split_defined by trivial. fold mvcnt.
    f_equal. f_equal.
    + rewrite Z.div_add_l by lia. rewrite Z.div_small by lia. lia.
    + rewrite Z.add_comm, Z.mod_add by lia. now apply Z.mod_small.
Qed.

Lemma splitgrp_combgrp_bijection_witness :
  ConstantLengthKmerHelper.splitgrp 64 (ConstantLengthKmerHelper.new 4 2) 107
  = Some (1, 43)
  /\ ConstantLengthKmerHelper.combgrp 64 (ConstantLengthKmerHelper.new 4 2) 1 43
     = Some 107.
Proof.
  destruct (splitgrp_combgrp_bijection 64 4 2) as [Hsplit _]; try lia.
  destruct (Hsplit 107) as (grp & kig & Hs & Hg & Hk & _ & _ & Hc); [lia |].
  subst grp kig. exact (conj Hs Hc).
Defined.

(** C1 as stated fails where the group id needs more than 32 bits:
    with kmerlength 20 and splitbit 40 on 64-bit keys, the key [2^39]
    is split into [(0, 0)] and recombined into [0].  It also has no
    defined result where the shift count reaches the width of the key
    type: kmerlength 32 and splitbit 0 on 64-bit keys. *)
Lemma splitgrp_combgrp_wide_group :
  0 <= 40 <= 2 * 20
  /\ 0 <= 2 ^ 39 < 4 ^ 20
  /\ ConstantLengthKmerHelper.splitgrp 64 (ConstantLengthKmerHelper.new 20 40) (2 ^ 39)
     = Some (0, 0)
  /\ ConstantLengthKmerHelper.combgrp 64 (ConstantLengthKmerHelper.new 20 40) 0 0
     = Some 0
  /\ Z.shiftr (2 ^ 39) (2 * 20 - 40) <> 0
  /\ ConstantLengthKmerHelper.splitgrp 64 (ConstantLengthKmerHelper.new 32 0) (2 ^ 63)
     = None.
Proof. vm_compute. repeat split; congruence. Qed.

(** ** Buffered binary streams *)

Section WriterSteps.

Import BinaryKmerWriter.
Context {KV : Type}.
Implicit Types (w : BinaryKmerWriter.t KV) (p : KV) (l : list KV).

Lemma init_consistent buf0 :
  length buf0 = bufsize -> consistent (init (Open (@nil KV)) buf0).
Proof.
  intros Hlen. unfold consistent, init, buflen. cbn.
  split; [now exists [] | split; [lia | exact Hlen]].
Qed.

(** One [write]: the record joins those accepted, the cursor stays
    below [buflen]. *)
Lemma write_step w p :
  consistent w ->
  exists w', write w p = Some w' /\ consistent w'
             /\ accepted w' = accepted w ++ [p].
Proof.
  destruct w as [file c b]. unfold consistent, accepted, write.
  cbn [f curr buf]. intros ([data ->] & Hc & Hlen).
  assert (Hin : (c < length b)%nat) by (rewrite Hlen; unfold buflen, bufsize in *; lia).
  destruct (Nat.ltb_spec c (length b)) as [_ | Hge]; [| lia].
  assert (Htake : take (S c) (<[c:=p]> b) = take c b ++ [p]).
  { rewrite (take_S_r _ _ p) by now apply list_lookup_insert_eq.
    now rewrite take_insert_ge by lia. }
  destruct (Nat.eqb_spec (S c) buflen) as [Hfull | Hnot].
  - cbn [fwrite mbind option_bind]. eexists. split; [reflexivity |].
    cbn [f curr buf]. split.
    + split; [now eexists |]. rewrite length_insert.
      unfold buflen. split; [lia | exact Hlen].
    + rewrite <- Hfull, Htake, take_0, app_nil_r. now rewrite app_assoc.
  - eexists. split; [reflexivity |]. cbn [f curr buf]. split.
    + split; [now eexists |]. rewrite length_insert. split; [lia | exact Hlen].
    + now rewrite Htake, app_assoc.
Qed.

Lemma write_all_spec l : forall w,
  consistent w ->
  exists w', write_all w l = Some w' /\ consistent w'
             /\ accepted w' = accepted w ++ l.
Proof.
  induction l as [| p l IH]; intros w Hw; cbn [write_all].
  - exists w. now rewrite app_nil_r.
  - destruct (write_step w p Hw) as (w1 & -> & Hw1 & Hacc1). cbn.
    destruct (IH w1 Hw1) as (w' & Hall & Hw' & Hacc').
    exists w'. split; [exact Hall | split; [exact Hw' |]].
    now rewrite Hacc', Hacc1, <- app_assoc.
Qed.

Lemma finish_spec w :
  consistent w ->
  exists w', finish w = Some w' /\ f w' = Closed (accepted w) /\ curr w' = 0%nat.
Proof.
  destruct w as [file c b]. unfold consistent, accepted, finish.
  cbn [f curr buf]. intros ([data ->] & _).
  cbn [fwrite fclose mbind option_bind].
  eexists. split; [reflexivity |]. now split.
Qed.

End WriterSteps.

Section ReaderSteps.

Import BinaryKmerReader.
Context {KV : Type}.
Implicit Types (r : BinaryKmerReader.t KV) (ret x : KV).

Lemma reader_init_consistent (data buf0 : list KV) :
  length buf0 = bufsize ->
  consistent (init (Open data) buf0) /\ pending (init (Open data) buf0) = data.
Proof.
  intros Hlen. unfold consistent, pending, init. cbn.
  split; [| reflexivity].
  split; [now eexists | split; [lia | split; [lia | exact Hlen]]].
Qed.

(** One [getNext] on a consistent reader: with nothing pending it
    returns [false] and leaves the output alone; otherwise it copies the
    first pending record out, stays consistent, and returns nothing. *)
Lemma getNext_step r ret :
  consistent r ->
  (pending r = [] /\ exists r', getNext r ret = Some (r', ret, Ret false))
  \/ (exists x rest r',
        pending r = x :: rest
        /\ getNext r ret = Some (r', x, NoReturn)
        /\ consistent r' /\ pending r' = rest).
Proof.
  destruct r as [file b c m]. unfold consistent, pending, getNext, copy_out.
  cbn [f buf curr max]. intros ([data ->] & Hcm & Hm & Hlen).
  unfold buflen, bufsize in *.
  destruct (Nat.eqb_spec c m) as [-> | Hne].
  - rewrite Nat.sub_diag, take_0. cbn [app fread mbind option_bind].
    destruct data as [| x data]; [left; split; [reflexivity | now eexists] |].
    right. cbn [take length Nat.eqb drop app lookup list_lookup].
    exists x, data. eexists. split; [reflexivity |].
    cbn [mbind option_bind]. split; [reflexivity |].
    cbn [f buf curr max]. split.
    + split; [now eexists |]. split; [lia |].
      pose proof (length_take data 15).
      split; [lia |]. cbn [length].
      rewrite length_app, length_drop. lia.
    + rewrite Nat.sub_succ, Nat.sub_0_r. cbn [drop skipn].
      rewrite drop_0, take_app_length.
      apply take_drop.
  - right.
    assert (Hlt : (c < length b)%nat) by lia.
    destruct (lookup_lt_is_Some_2 b c Hlt) as [x Hx].
    rewrite Hx. cbn [mbind option_bind].
    exists x. eexists. eexists. split; [| split; [reflexivity |]].
    + rewrite (drop_S _ _ _ Hx).
      replace (m - c)%nat with (S (m - S c)) by lia. reflexivity.
    + cbn [f buf curr max]. split; [| reflexivity].
      split; [now eexists | lia].
Qed.

(** The call that finds nothing pending: the cursor equals [max], only
    [max] changes, and it becomes zero. *)
Lemma getNext_eof_state r ret :
  consistent r -> pending r = [] ->
  curr r = max r
  /\ getNext r ret = Some (mk (Open []) (buf r) (curr r) 0%nat, ret, Ret false).
Proof.
  destruct r as [file b c m]. unfold consistent, pending, getNext.
  cbn [f buf curr max]. intros ([data ->] & Hcm & Hm & Hlen) Hpend.
  apply app_eq_nil in Hpend as [Htake ->].
  assert (Heq : c = m).
  { apply (f_equal length) in Htake.
    rewrite length_take, length_drop, Hlen in Htake.
    unfold buflen, bufsize in *. cbn [length] in Htake. lia. }
  subst m. split; [reflexivity |].
  rewrite Nat.eqb_refl. cbn [fread take drop length app mbind option_bind Nat.eqb].
  now rewrite drop_0.
Qed.

(** A call that hands out a record leaves the cursor above zero. *)
Lemma getNext_record_cursor r ret r' x :
  getNext r ret = Some (r', x, NoReturn) -> (1 <= curr r')%nat.
Proof.
  unfold getNext, copy_out. intros Hget.
  repeat match type of Hget with
         | context [if ?b then _ else _] => destruct b
         | context [fread ?n ?file] => destruct (fread n file) as [[? ?] |]
         | context [?l !! ?i] => destruct (l !! i)
         | _ => progress cbn [mbind option_bind f buf curr max] in Hget
         end; try discriminate Hget;
    injection Hget as <- _; cbn [curr]; lia.
Qed.

(** Successive calls hand out the pending records in order, each call
    returning nothing. *)
Lemma getNext_seq_pending n : forall r ret,
  consistent r -> (n <= length (pending r))%nat ->
  exists r',
    getNext_seq n r ret
    = Some (map (fun y => (y, NoReturn)) (take n (pending r)), r')
    /\ consistent r' /\ pending r' = drop n (pending r)
    /\ ((1 <= n)%nat -> (1 <= curr r')%nat).
Proof.
  induction n as [| n IH]; intros r ret Hr Hn.
  - exists r. cbn [getNext_seq]. rewrite take_0, drop_0.
    split; [reflexivity |]. split; [exact Hr |]. split; [reflexivity | lia].
  - cbn [getNext_seq].
    destruct (getNext_step r ret Hr)
      as [[Hnil _] | (x & rest & r1 & Hp & Hget & Hr1 & Hrest)].
    + rewrite Hnil in Hn. cbn [length] in Hn. lia.
    + rewrite Hget, Hp in *. cbn [length] in Hn. cbn [mbind option_bind].
      destruct (IH r1 x Hr1) as (r' & Hseq & Hr' & Hpend & Hcur);
        [rewrite Hrest; lia |].
      rewrite Hseq, Hrest. cbn [mbind option_bind take map drop].
      exists r'. split; [reflexivity |]. split; [exact Hr' |].
      split; [now rewrite Hpend, Hrest |].
      intros _. destruct n as [| n]; [| apply Hcur; lia].
      cbn [getNext_seq] in Hseq. injection Hseq as <-.
      now apply (getNext_record_cursor r ret r1 x).
Qed.

(** The reading loop on a reader with a record pending: the first call
    returns nothing, and the test of the loop is undefined. *)
Lemma read_all_record_undefined fuel r ret :
  consistent r -> pending r <> [] -> read_all fuel r ret = None.
Proof.
  intros Hr Hne. destruct fuel as [| fuel]; [reflexivity |].
  cbn [read_all].
  destruct (getNext_step r ret Hr)
    as [[Hnil _] | (x & rest & r1 & _ & -> & _)]; [contradiction | reflexivity].
Qed.

End ReaderSteps.

(** The part of C2 that holds.  Any sequence of records written with
    [write] one by one and flushed by [finish] leaves exactly these
    records, in order, in the stream; on that stream as many calls of
    [getNext] as there are records copy these records out, in order,
    each call returning nothing; and the following call returns
    [false]. *)
Lemma stream_roundtrip_by_calls {KV : Type}
    (records wbuf0 rbuf0 : list KV) (ret0 ret1 : KV) :
  length wbuf0 = bufsize -> length rbuf0 = bufsize ->
  exists w w' r1 r2,
    BinaryKmerWriter.write_all (BinaryKmerWriter.init (Open []) wbuf0) records
      = Some w
    /\ BinaryKmerWriter.finish w = Some w'
    /\ BinaryKmerWriter.f w' = Closed records
    /\ BinaryKmerReader.getNext_seq (length records)
         (BinaryKmerReader.init (Open records) rbuf0) ret0
       = Some (map (fun y => (y, NoReturn)) records, r1)
    /\ BinaryKmerReader.getNext r1 ret1 = Some (r2, ret1, Ret false).
Proof.
  intros Hw Hr.
  destruct (write_all_spec records _ (init_consistent wbuf0 Hw))
    as (w & Hall & Hcons & Hacc).
  destruct (finish_spec w Hcons) as (w' & Hfin & Hfile & _).
  destruct (reader_init_consistent records rbuf0 Hr) as [Hrc Hpend].
  destruct (getNext_seq_pending (length records) _ ret0 Hrc)
    as (r1 & Hseq & Hr1 & Hp1 & _); [now rewrite Hpend |].
  rewrite Hpend in Hseq, Hp1. rewrite take_ge in Hseq by lia.
  rewrite drop_ge in Hp1 by lia.
  destruct (getNext_eof_state r1 ret1 Hr1 Hp1) as [_ Heof].
  exists w, w', r1. eexists.
  split; [exact Hall |]. split; [exact Hfin |].
  split; [rewrite Hfile, Hacc; reflexivity |].
  split; [exact Hseq | exact Heof].
Qed.

(** C2 at one record.  The record is written and flushed to the
    stream, and the first [getNext] on that stream copies it out; but
    that call returns nothing, so the reading loop, which tests the
    returned value, has no defined behaviour whatever its bound.  On
    the empty stream the loop ends at once with no record. *)
Theorem read_loop_undefined_after_record :
  BinaryKmerWriter.write_all (BinaryKmerWriter.init (Open []) blank_buf)
    [sample_record]
  = Some (BinaryKmerWriter.mk (Open []) 1%nat
            (sample_record :: repeat blank_record 1023))
  /\ BinaryKmerWriter.finish
       (BinaryKmerWriter.mk (Open []) 1%nat
          (sample_record :: repeat blank_record 1023))
     = Some (BinaryKmerWriter.mk (Closed [sample_record]) 0%nat
               (sample_record :: repeat blank_record 1023))
  /\ BinaryKmerReader.getNext
       (BinaryKmerReader.init (Open [sample_record]) blank_buf) blank_record
     = Some (BinaryKmerReader.mk (Open [])
               (sample_record :: repeat blank_record 1023) 1%nat 1%nat,
             sample_record, NoReturn)
  /\ (forall fuel,
        BinaryKmerReader.read_all fuel
          (BinaryKmerReader.init (Open [sample_record]) blank_buf) blank_record
        = None)
  /\ BinaryKmerReader.read_all 1
       (BinaryKmerReader.init (Open []) blank_buf) blank_record
     = Some ([], BinaryKmerReader.init (Open []) blank_buf).
Proof.
  assert (Hget :
    BinaryKmerReader.getNext
      (BinaryKmerReader.init (Open [sample_record]) blank_buf) blank_record
    = Some (BinaryKmerReader.mk (Open [])
              (sample_record :: repeat blank_record 1023) 1%nat 1%nat,
            sample_record, NoReturn))
    by (vm_compute; reflexivity).
  split; [vm_compute; reflexivity |].
  split; [vm_compute; reflexivity |].
  split; [exact Hget |].
  split; [| vm_compute; reflexivity].
  intros [| fuel]; [reflexivity |].
  cbn [BinaryKmerReader.read_all]. now rewrite Hget.
Qed.

(** [getNext] never hands a [true] to its caller. *)
Lemma getNext_never_true {KV : Type} (r r' : BinaryKmerReader.t KV) (ret x : KV) rv :
  BinaryKmerReader.getNext r ret = Some (r', x, rv) -> rv <> Ret true.
Proof.
  unfold BinaryKmerReader.getNext, BinaryKmerReader.copy_out.
  intros Hget Htrue. subst rv.
  repeat match type of Hget with
         | context [if ?b then _ else _] => destruct b
         | context [fread ?n ?file] => destruct (fread n file) as [[? ?] |]
         | context [?l !! ?i] => destruct (l !! i)
         | _ => progress cbn [mbind option_bind] in Hget
         end; congruence.
Qed.

(** C5 at a stream that holds one record: the first [getNext] refills
    the buffer, copies the record out and advances the cursor, and then
    control reaches the end of the function: the caller receives no
    return value. *)
Theorem getNext_record_without_return :
  BinaryKmerReader.getNext
    (BinaryKmerReader.init (Open [sample_record]) blank_buf) blank_record
  = Some (BinaryKmerReader.mk (Open [])
            (sample_record :: repeat blank_record 1023) 1%nat 1%nat,
          sample_record, NoReturn).
Proof. vm_compute. reflexivity. Qed.

(** C10 on the reader.  On a stream that holds one record the second
    [getNext] returns [false] and leaves [curr = 1] above [max = 0]; a
    third call then hands out slot 1 of the buffer, which never held a
    record.  On a stream of sixteen records the call after the end of
    the stream reads slot 16 of the buffer. *)
Theorem reader_cursor_above_max :
  (exists r1 r2 r3,
     BinaryKmerReader.getNext
       (BinaryKmerReader.init (Open [sample_record]) stale_buf) blank_record
     = Some (r1, sample_record, NoReturn)
     /\ BinaryKmerReader.getNext r1 sample_record
        = Some (r2, sample_record, Ret false)
     /\ BinaryKmerReader.curr r2 = 1%nat /\ BinaryKmerReader.max r2 = 0%nat
     /\ BinaryKmerReader.getNext r2 sample_record
        = Some (r3, blank_record, NoReturn)
     /\ BinaryKmerReader.curr r3 = 2%nat /\ BinaryKmerReader.max r3 = 0%nat)
  /\
  (exists r r',
     BinaryKmerReader.getNext_seq 17
       (BinaryKmerReader.init (Open (repeat sample_record 16)) stale_buf)
       blank_record
     = Some (map (fun y => (y, NoReturn)) (repeat sample_record 16)
               ++ [(sample_record, Ret false)], r)
     /\ BinaryKmerReader.curr r = 16%nat /\ BinaryKmerReader.max r = 0%nat
     /\ BinaryKmerReader.buf r !! 16%nat = Some stale_record
     /\ BinaryKmerReader.getNext r sample_record
        = Some (r', stale_record, NoReturn)
     /\ BinaryKmerReader.curr r' = 17%nat).
Proof.
  split.
  - do 3 eexists. vm_compute. repeat split.
  - do 2 eexists. vm_compute. repeat split.
Qed.

(** The part of C10 on the writer: the cursor is below [buflen] after
    construction and after every [write], and zero after [finish]. *)
Lemma writer_cursor_invariant {KV : Type} (wbuf0 l : list KV) :
  length wbuf0 = bufsize ->
  exists w w',
    BinaryKmerWriter.write_all (BinaryKmerWriter.init (Open []) wbuf0) l = Some w
    /\ (BinaryKmerWriter.curr w < buflen)%nat
    /\ BinaryKmerWriter.finish w = Some w'
    /\ BinaryKmerWriter.curr w' = 0%nat.
Proof.
  intros Hlen.
  destruct (write_all_spec l _ (init_consistent wbuf0 Hlen))
    as (w & Hall & Hcons & _).
  destruct (finish_spec w Hcons) as (w' & Hfin & _ & Hzero).
  exists w, w'. repeat split; trivial. apply Hcons.
Qed.

(** ** Key codec *)

Section Codec.

Import ConstantLengthKmerHelper.
Variable W : Z.

Lemma is_ACGT_cases c :
  is_ACGT c = true ->
  (c = "A" \/ c = "C" \/ c = "T" \/ c = "G")%char.
Proof.
  unfold is_ACGT, chr_eqb. intros Hc.
  destruct (Ascii.eqb_spec c "A"); [tauto |].
  destruct (Ascii.eqb_spec c "C"); [tauto |].
  destruct (Ascii.eqb_spec c "T"); [tauto |].
  destruct (Ascii.eqb_spec c "G"); [tauto |].
  discriminate Hc.
Qed.

(** One round of the loop computes [4 * ret + value(c)] when that fits. *)
Lemma add_symbol_value c ret :
  is_ACGT c = true -> 0 <= ret -> 4 * ret + 3 < 2 ^ W ->
  add_symbol W c (wrap W (Z.shiftl ret 2)) = 4 * ret + symbol_value c.
Proof.
  intros Hc Hret Hfit.
  rewrite Z.shiftl_mul_pow2 by lia. change (2 ^ 2) with 4.
  rewrite wrap_small by lia.
  unfold add_symbol, incr, symbol_value.
  destruct (is_ACGT_cases c Hc) as [-> | [-> | [-> | ->]]];
    simpl (chr_eqb _ _); cbv iota;
    rewrite ?(wrap_small W (ret * 4 + 1)) by lia;
    rewrite ?(wrap_small W (ret * 4 + 1 + 1)) by lia;
    rewrite ?(wrap_small W (ret * 4 + 1 + 1 + 1)) by lia; lia.
Qed.

Lemma scan_run run : forall ret rest,
  forallb is_ACGT run = true -> bad_start rest = true ->
  0 <= ret -> (ret + 1) * 4 ^ Z.of_nat (length run) <= 2 ^ W ->
  scan W (run ++ rest) ret
  = (ret * 4 ^ Z.of_nat (length run) + kmer_sum run, rest).
Proof.
  induction run as [| c run IH]; intros ret rest Hrun Hrest Hret Hfit.
  - cbn [app length kmer_sum Z.of_nat]. rewrite Z.pow_0_r, Z.mul_1_r, Z.add_0_r.
    destruct rest as [| c rest]; [reflexivity |].
    cbn in Hrest. cbn [scan].
    destruct (is_ACGT c); [discriminate | reflexivity].
  - cbn [forallb] in Hrun. apply andb_true_iff in Hrun as [Hc Hrun].
    cbn [app scan]. rewrite Hc.
    cbn [length kmer_sum] in *. rewrite Nat2Z.inj_succ, Z.pow_succ_r in * by lia.
    assert (Hpow : 0 < 4 ^ Z.of_nat (length run)) by (apply Z.pow_pos_nonneg; lia).
    assert (Hv : 0 <= symbol_value c <= 3).
    { destruct (is_ACGT_cases c Hc) as [-> | [-> | [-> | ->]]]; cbn; lia. }
    rewrite add_symbol_value by (trivial; nia).
    rewrite IH by (trivial; nia). f_equal. ring.
Qed.

Lemma skip_space_sep sep : forall rest,
  forallb isspace sep = true ->
  match rest with c :: _ => isspace c = false | [] => True end ->
  skip_space (sep ++ rest) = rest.
Proof.
  induction sep as [| c sep IH]; intros rest Hsep Hrest.
  - destruct rest as [| c rest]; [reflexivity |]. cbn. now rewrite Hrest.
  - cbn in *. apply andb_true_iff in Hsep as [-> Hsep]. now apply IH.
Qed.

Lemma read_digits_run digits : forall tail acc,
  forallb isdigit digits = true -> ends_token tail = true ->
  read_digits (digits ++ tail) acc
  = acc * 10 ^ Z.of_nat (length digits) + decimal_sum digits.
Proof.
  induction digits as [| d digits IH]; intros tail acc Hd Htail.
  - cbn [app length decimal_sum Z.of_nat]. rewrite Z.pow_0_r, Z.mul_1_r, Z.add_0_r.
    destruct tail as [| c tail]; [reflexivity |].
    cbn in Htail. cbn [read_digits].
    destruct (isdigit c); [discriminate | reflexivity].
  - cbn [forallb] in Hd. apply andb_true_iff in Hd as [Hd0 Hd].
    cbn [app read_digits]. rewrite Hd0, IH by trivial.
    cbn [length decimal_sum]. rewrite Nat2Z.inj_succ, Z.pow_succ_r by lia. ring.
Qed.

Lemma digit_not_space c : isdigit c = true -> isspace c = false.
Proof.
  unfold isdigit, isspace. intros Hd.
  apply andb_true_iff in Hd as [Hlo Hhi].
  apply Z.leb_le in Hlo. apply Z.leb_le in Hhi.
  apply orb_false_iff. split.
  - apply Z.eqb_neq. lia.
  - apply andb_false_iff. right. apply Z.leb_gt. lia.
Qed.

Lemma digit_not_sign c :
  isdigit c = true -> chr_eqb c "-" = false /\ chr_eqb c "+" = false.
Proof.
  unfold chr_eqb. intros Hd. split.
  - destruct (Ascii.eqb_spec c "-") as [-> |]; [discriminate Hd | reflexivity].
  - destruct (Ascii.eqb_spec c "+") as [-> |]; [discriminate Hd | reflexivity].
Qed.

Lemma digit_not_ACGT c : isdigit c = true -> is_ACGT c = false.
Proof.
  intros Hd. destruct (is_ACGT c) eqn:Hc; [| reflexivity].
  destruct (is_ACGT_cases c Hc) as [-> | [-> | [-> | ->]]]; discriminate Hd.
Qed.

Lemma space_not_ACGT c : isspace c = true -> is_ACGT c = false.
Proof.
  intros Hd. destruct (is_ACGT c) eqn:Hc; [| reflexivity].
  destruct (is_ACGT_cases c Hc) as [-> | [-> | [-> | ->]]]; discriminate Hd.
Qed.

(** [sscanf("%d")] on white space, a token and a tail stores the
    number of the token. *)
Lemma sscanf_d_token sep sg d digits tail tv :
  forallb isspace sep = true -> forallb isdigit (d :: digits) = true ->
  ends_token tail = true ->
  INT_MIN <= signed sg (decimal_sum (d :: digits)) <= INT_MAX ->
  sscanf_d (sep ++ sign_chars sg ++ (d :: digits) ++ tail) tv
  = Value (signed sg (decimal_sum (d :: digits))).
Proof.
  intros Hsep Hdig Htail Hrange.
  pose proof Hdig as Hall.
  cbn [forallb] in Hdig. apply andb_true_iff in Hdig as [Hd _].
  destruct (digit_not_sign d Hd) as [Hminus Hplus].
  unfold sscanf_d.
  rewrite skip_space_sep; trivial.
  2: { destruct sg; cbn; trivial; now apply digit_not_space. }
  assert (Hsign : read_sign (sign_chars sg ++ (d :: digits) ++ tail)
                  = (match sg with Minus => true | _ => false end,
                     (d :: digits) ++ tail)).
  { destruct sg; cbn; [now rewrite Hminus, Hplus | reflexivity | reflexivity]. }
  rewrite Hsign. cbn [app]. rewrite Hd.
  change (d :: digits ++ tail) with ((d :: digits) ++ tail).
  rewrite read_digits_run by trivial. rewrite Z.mul_0_l, Z.add_0_l.
  assert (Hn : (if match sg with Minus => true | _ => false end
                then - decimal_sum (d :: digits) else decimal_sum (d :: digits))
               = signed sg (decimal_sum (d :: digits))) by now destruct sg.
  rewrite Hn.
  destruct (Z.leb_spec INT_MIN (signed sg (decimal_sum (d :: digits)))); [| lia].
  destruct (Z.leb_spec (signed sg (decimal_sum (d :: digits))) INT_MAX); [| lia].
  reflexivity.
Qed.

End Codec.

Lemma token_bad_start sep sg d digits tail :
  forallb isspace sep = true -> isdigit d = true ->
  bad_start (sep ++ sign_chars sg ++ (d :: digits) ++ tail) = true.
Proof.
  intros Hsep Hd. unfold bad_start.
  destruct sep as [| c sep].
  - destruct sg; cbn [app sign_chars]; trivial.
    now rewrite (digit_not_ACGT d Hd).
  - cbn in Hsep. apply andb_true_iff in Hsep as [Hc _].
    cbn [app]. now rewrite (space_not_ACGT c Hc).
Qed.

(** C3.  A line made of a non-empty run of A/C/G/T symbols that fits
    the key type ([2L <= W]), then white space (possibly none), then an
    integer token that an [int] can hold, then anything that does not
    go on with a digit: [convert] returns [true], sets the key to the
    sum of [value(s_i) * 4^(L-1-i)] and the value to the integer of the
    token; the scan of the symbols stops at the first character after
    the run. *)
Theorem convert_acgt_line (W : Z) (run sep : list ascii) (sg : sign)
    (digits tail : list ascii) (k : Z) (v : slot) :
  run <> [] ->
  forallb ConstantLengthKmerHelper.is_ACGT run = true ->
  2 * Z.of_nat (length run) <= W ->
  forallb isspace sep = true ->
  digits <> [] -> forallb isdigit digits = true ->
  ends_token tail = true ->
  INT_MIN <= signed sg (decimal_sum digits) <= INT_MAX ->
  let line := run ++ sep ++ sign_chars sg ++ digits ++ tail in
  ConstantLengthKmerHelper.convert W line k v
  = (true, kmer_sum run, Value (signed sg (decimal_sum digits)))
  /\ ConstantLengthKmerHelper.scan W line 0
     = (kmer_sum run, sep ++ sign_chars sg ++ digits ++ tail).
Proof.
  intros Hne Hrun HW Hsep Hdne Hdig Htail Hrange line. subst line.
  destruct digits as [| d digits]; [congruence |].
  destruct run as [| c run]; [congruence |].
  assert (Hd : isdigit d = true).
  { cbn in Hdig. now apply andb_true_iff in Hdig as [? _]. }
  assert (Hscan :
    ConstantLengthKmerHelper.scan W
      ((c :: run) ++ sep ++ sign_chars sg ++ (d :: digits) ++ tail) 0
    = (kmer_sum (c :: run), sep ++ sign_chars sg ++ (d :: digits) ++ tail)).
  { rewrite scan_run; trivial.
    - now apply token_bad_start.
    - lia.
    - rewrite Z.add_0_l, Z.mul_1_l, pow4 by lia.
      apply Z.pow_le_mono_r; lia. }
  split; [| exact Hscan].
  unfold ConstantLengthKmerHelper.convert.
  change ((c :: run) ++ ?r) with (c :: (run ++ r)) at 1.
  cbn [forallb] in Hrun. apply andb_true_iff in Hrun as [Hc _].
  cbv iota beta. rewrite Hc.
  change (c :: (run ++ ?r)) with ((c :: run) ++ r).
  rewrite Hscan. now rewrite sscanf_d_token.
Qed.

Lemma convert_acgt_line_witness :
  ConstantLengthKmerHelper.convert 64 (cstr "ACGT 17" ++ [newline]) 0 Indeterminate
  = (true, 27, Value 17).
Proof.
  apply (convert_acgt_line 64 (cstr "ACGT") (cstr " ") NoSign (cstr "17")
           [newline] 0 Indeterminate).
  - discriminate.
  - reflexivity.
  - cbn. lia.
  - reflexivity.
  - discriminate.
  - reflexivity.
  - reflexivity.
  - vm_compute. split; discriminate.
Defined.

(** The part of the rejection rule that holds.  [convert] returns
    [false] exactly when the line is empty or starts outside A/C/G/T,
    and then it leaves the key and the value of the caller as they
    were. *)
Theorem convert_fails_iff_bad_start (W : Z) (s : list ascii) (k : Z) (v : slot) :
  (fst (fst (ConstantLengthKmerHelper.convert W s k v)) = false
   <-> bad_start s = true)
  /\ (bad_start s = true ->
      ConstantLengthKmerHelper.convert W s k v = (false, k, v)).
Proof.
  unfold ConstantLengthKmerHelper.convert, bad_start.
  destruct s as [| c s]; [now split |].
  destruct (ConstantLengthKmerHelper.is_ACGT c) eqn:Hc; cbn [negb].
  - destruct (ConstantLengthKmerHelper.scan W (c :: s) 0) as [ret rest].
    cbn [fst]. split; [split |]; discriminate.
  - now split.
Qed.

Lemma convert_fails_iff_bad_start_witness :
  ConstantLengthKmerHelper.convert 64 (cstr "NCGT 5") 9 (Value 3)
  = (false, 9, Value 3).
Proof.
  apply (convert_fails_iff_bad_start 64 (cstr "NCGT 5") 9 (Value 3)).
  reflexivity.
Defined.

(** C4 at a line without a value.  ["ACGT"] alone, or followed by
    something that is not a number, is converted with result [true]:
    the result of [sscanf] is not looked at, the key is set, and the
    value handed to the caller is the local object that was never
    assigned. *)
Lemma convert_accepts_missing_value :
  ConstantLengthKmerHelper.convert 64 (cstr "ACGT") 9 (Value 3)
  = (true, 27, Indeterminate)
  /\ ConstantLengthKmerHelper.convert 64 (cstr "ACGT xyz") 9 (Value 3)
     = (true, 27, Indeterminate).
Proof. split; reflexivity. Qed.

(** ** Paths and opening *)

Lemma c_str_terminated s : forall rest,
  no_NUL s = true -> c_str (s ++ NUL :: rest) = s.
Proof.
  induction s as [| c s IH]; intros rest Hs; [reflexivity |].
  cbn in Hs. apply andb_true_iff in Hs as [Hc Hs].
  cbn [app c_str]. apply negb_true_iff in Hc. rewrite Hc.
  f_equal. now apply IH.
Qed.

Lemma c_str_whole s : no_NUL s = true -> c_str s = s.
Proof.
  induction s as [| c s IH]; intros Hs; [reflexivity |].
  cbn in Hs. apply andb_true_iff in Hs as [Hc Hs].
  cbn [c_str]. apply negb_true_iff in Hc. rewrite Hc.
  f_equal. now apply IH.
Qed.

Lemma no_NUL_app a b : no_NUL (a ++ b) = true -> no_NUL a = true /\ no_NUL b = true.
Proof. unfold no_NUL. rewrite forallb_app. apply andb_true_iff. Qed.

(** What the three constructors hand to [fopen]. *)
Lemma open_name_strip (stack fname : list ascii) :
  length stack = bufsize -> no_NUL fname = true ->
  (0 < length fname < bufsize)%nat ->
  open_name stack fname = Some (strip_newline fname).
Proof.
  intros Hstack Hnul Hlen. unfold open_name, strcpy, strlen.
  rewrite (c_str_whole fname Hnul).
  destruct (Nat.ltb_spec (length fname) (length stack)) as [_ | Hge]; [| lia].
  cbn [mbind option_bind].
  rewrite (c_str_terminated fname _ Hnul).
  destruct (Nat.eqb_spec (length fname) 0) as [H0 | _]; [lia |].
  destruct fname as [| c0 fname0] using rev_ind; [cbn in Hlen; lia |].
  clear IHfname0. rename fname0 into body, c0 into c.
  apply no_NUL_app in Hnul as [Hbody Hc0].
  rewrite length_app, Nat.add_sub. cbn [length].
  rewrite <- app_assoc. cbn [app].
  rewrite list_lookup_middle by reflexivity. cbn [mbind option_bind].
  unfold strip_newline. rewrite rev_unit, rev_involutive.
  destruct (chr_eqb c newline) eqn:Hc.
  - rewrite insert_app_r_alt by lia. rewrite Nat.sub_diag. cbn [insert list_insert].
    f_equal. now apply c_str_terminated.
  - f_equal. change (body ++ c :: NUL :: ?r) with (body ++ [c] ++ NUL :: r).
    rewrite app_assoc. apply c_str_terminated.
    unfold no_NUL in *. now rewrite forallb_app, Hbody, Hc0.
Qed.

Lemma strip_newline_last body c :
  strip_newline (body ++ [c])
  = if chr_eqb c newline then body else body ++ [c].
Proof. unfold strip_newline. now rewrite rev_unit, rev_involutive. Qed.

(** C8, as the code has it.  For a path of 1 to 1023 characters, each
    of the three constructors hands to [fopen] the path without one
    final newline character: a path that ends in a newline loses
    exactly that character, and a path that ends in any other
    character (a carriage return included) is passed on as it is. *)
Theorem constructors_strip_one_newline {H KV : Type} (h : H)
    (fopen_text : list ascii -> string -> FILE ascii)
    (fopen_bin : list ascii -> string -> FILE KV)
    (stack fname : list ascii) (buf0 : list KV) :
  length stack = bufsize -> no_NUL fname = true ->
  (0 < length fname < bufsize)%nat ->
  KmerFileReader.new fopen_text stack fname h
  = Some (KmerFileReader.mk (fopen_text (strip_newline fname) "r"%string) h)
  /\ BinaryKmerReader.new fopen_bin stack fname buf0
     = Some (BinaryKmerReader.init (fopen_bin (strip_newline fname) "rb"%string) buf0)
  /\ BinaryKmerWriter.new fopen_bin stack fname buf0
     = Some (BinaryKmerWriter.init (fopen_bin (strip_newline fname) "wb"%string) buf0)
  /\ (forall body, fname = body ++ [newline] -> strip_newline fname = body)
  /\ (forall body c, fname = body ++ [c] -> c <> newline ->
        strip_newline fname = fname).
Proof.
  intros Hstack Hnul Hlen.
  pose proof (open_name_strip stack fname Hstack Hnul Hlen) as Hname.
  unfold KmerFileReader.new, BinaryKmerReader.new, BinaryKmerWriter.new.
  rewrite Hname. cbn [mbind option_bind].
  repeat split.
  - intros body ->. now rewrite strip_newline_last.
  - intros body c -> Hc. rewrite strip_newline_last.
    unfold chr_eqb. destruct (Ascii.eqb_spec c newline); [contradiction | reflexivity].
Qed.

Lemma constructors_strip_one_newline_witness :
  BinaryKmerReader.new (one_file_fs [sample_record]) sample_stack
    (cstr "data.bin" ++ [newline]) blank_buf
  = Some (BinaryKmerReader.init (Open [sample_record]) blank_buf).
Proof.
  apply (constructors_strip_one_newline sample_helper
           (one_file_fs (cstr "ACGT 1")) (one_file_fs [sample_record])
           sample_stack (cstr "data.bin" ++ [newline]) blank_buf).
  - reflexivity.
  - reflexivity.
  - cbn. unfold bufsize. lia.
Defined.

(** C8 as stated fails on a final carriage return: the path
    ["data.bin\r"] reaches [fopen] with its carriage return, so the file
    [data.bin] is not found, while ["data.bin\n"] opens it. *)
Lemma carriage_return_not_stripped :
  open_name sample_stack (cstr "data.bin" ++ [carriage_return])
  = Some (cstr "data.bin" ++ [carriage_return])
  /\ BinaryKmerReader.new (one_file_fs [sample_record]) sample_stack
       (cstr "data.bin" ++ [carriage_return]) blank_buf
     = Some (BinaryKmerReader.init Null blank_buf)
  /\ BinaryKmerReader.new (one_file_fs [sample_record]) sample_stack
       (cstr "data.bin" ++ [newline]) blank_buf
     = Some (BinaryKmerReader.init (Open [sample_record]) blank_buf).
Proof. vm_compute. repeat split. Qed.

(** C6, as the code has it.  When [fopen] returns a null pointer for
    the path, each constructor completes and stores the null pointer;
    nothing is reported at open time.  The first operation that needs
    the file ([getNext] of either reader, [finish] of the writer) then
    has no defined behaviour. *)
Theorem constructors_keep_null_handle {H KV : Type} `{IOHelper H} (h : H)
    (fopen_text : list ascii -> string -> FILE ascii)
    (fopen_bin : list ascii -> string -> FILE KV)
    (stack fname : list ascii) (buf0 : list KV) (T : Z) (V : slot) (ret : KV) :
  length stack = bufsize -> no_NUL fname = true ->
  (0 < length fname < bufsize)%nat ->
  (forall mode, fopen_text (strip_newline fname) mode = Null) ->
  (forall mode, fopen_bin (strip_newline fname) mode = Null) ->
  KmerFileReader.new fopen_text stack fname h = Some (KmerFileReader.mk Null h)
  /\ KmerFileReader.getNext (KmerFileReader.mk Null h) T V = None
  /\ BinaryKmerReader.new fopen_bin stack fname buf0
     = Some (BinaryKmerReader.init Null buf0)
  /\ BinaryKmerReader.getNext (BinaryKmerReader.init Null buf0) ret = None
  /\ BinaryKmerWriter.new fopen_bin stack fname buf0
     = Some (BinaryKmerWriter.init Null buf0)
  /\ BinaryKmerWriter.finish (BinaryKmerWriter.init Null buf0) = None.
Proof.
  intros Hstack Hnul Hlen Htext Hbin.
  pose proof (open_name_strip stack fname Hstack Hnul Hlen) as Hname.
  unfold KmerFileReader.new, BinaryKmerReader.new, BinaryKmerWriter.new.
  rewrite Hname. cbn [mbind option_bind].
  rewrite Htext, !Hbin. repeat split.
Qed.

Lemma constructors_keep_null_handle_witness :
  KmerFileReader.new (one_file_fs (cstr "ACGT 1")) sample_stack
    (cstr "missing.bin") sample_helper
  = Some (KmerFileReader.mk Null sample_helper)
  /\ @KmerFileReader.getNext _ (ConstantLengthKmerHelper_IOHelper 64)
       (KmerFileReader.mk Null sample_helper) 0 Indeterminate = None
  /\ BinaryKmerReader.new (one_file_fs [sample_record]) sample_stack
       (cstr "missing.bin") blank_buf
     = Some (BinaryKmerReader.init Null blank_buf)
  /\ BinaryKmerReader.getNext (BinaryKmerReader.init Null blank_buf) blank_record
     = None
  /\ BinaryKmerWriter.new (one_file_fs [sample_record]) sample_stack
       (cstr "missing.bin") blank_buf
     = Some (BinaryKmerWriter.init Null blank_buf)
  /\ BinaryKmerWriter.finish (BinaryKmerWriter.init Null blank_buf) = None.
Proof.
  apply (@constructors_keep_null_handle _ _ (ConstantLengthKmerHelper_IOHelper 64)
           sample_helper
           (one_file_fs (cstr "ACGT 1")) (one_file_fs [sample_record])
           sample_stack (cstr "missing.bin") blank_buf
           0 Indeterminate blank_record).
  - reflexivity.
  - reflexivity.
  - cbn. unfold bufsize. lia.
  - intros mode. reflexivity.
  - intros mode. reflexivity.
Defined.

(** C6 as stated fails: constructing a reader or a writer on a path
    that cannot be opened yields an object, with the null pointer in it
    and no error. *)
Lemma missing_file_constructs_object :
  KmerFileReader.new (one_file_fs (cstr "ACGT 1")) sample_stack
    (cstr "missing.txt") sample_helper
  = Some (KmerFileReader.mk Null sample_helper)
  /\ BinaryKmerReader.new (one_file_fs [sample_record]) sample_stack
       (cstr "missing.bin") blank_buf
     = Some (BinaryKmerReader.mk Null blank_buf 0%nat 0%nat)
  /\ BinaryKmerWriter.new (one_file_fs [sample_record]) sample_stack
       (cstr "nodir/out.bin") blank_buf
     = Some (BinaryKmerWriter.mk Null 0%nat blank_buf).
Proof. vm_compute. repeat split. Qed.

(** ** Text reader *)

(** [fgets] with room for exactly the characters of [chunk], none of
    them a newline, reads [chunk] and leaves what follows. *)
Lemma fgets_chars_chunk chunk : forall rest,
  no_newline chunk = true ->
  fgets_chars (length chunk) (chunk ++ rest) = (chunk, rest).
Proof.
  induction chunk as [| c chunk IH]; intros rest Hnl.
  - reflexivity.
  - cbn in Hnl. apply andb_true_iff in Hnl as [Hc Hnl].
    apply negb_true_iff in Hc.
    cbn [length app fgets_chars]. rewrite Hc. now rewrite IH.
Qed.

(** C7, as the code has it.  When the next line of the input goes on
    for more than 1023 characters, [getNext] converts its first 1023
    characters as if they were a line, and leaves the remainder of the
    line in the stream for the following call; no error is raised. *)
Theorem getNext_splits_long_line {H : Type} `{IOHelper H} (h : H)
    (chunk rest : list ascii) (T : Z) (V : slot) :
  length chunk = 1023%nat -> no_newline chunk = true ->
  KmerFileReader.getNext (KmerFileReader.mk (Open (chunk ++ rest)) h) T V
  = Some (KmerFileReader.mk (Open rest) h, convert h chunk T V).
Proof.
  intros Hlen Hnl. unfold KmerFileReader.getNext, fgets.
  cbn [KmerFileReader.f KmerFileReader.helper].
  destruct chunk as [| c chunk]; [discriminate Hlen |].
  change ((c :: chunk) ++ rest) with (c :: (chunk ++ rest)). cbv iota.
  change (c :: (chunk ++ rest)) with ((c :: chunk) ++ rest).
  change (1024 - 1)%nat with 1023%nat. rewrite <- Hlen.
  now rewrite fgets_chars_chunk.
Qed.

Lemma getNext_splits_long_line_witness :
  @KmerFileReader.getNext _ (ConstantLengthKmerHelper_IOHelper 64)
    (KmerFileReader.mk
       (Open ((cstr "ACGT" ++ repeat " "%char 1019) ++ long_line_rest))
       sample_helper) 0 Indeterminate
  = Some (KmerFileReader.mk (Open long_line_rest) sample_helper,
          @convert _ (ConstantLengthKmerHelper_IOHelper 64) sample_helper
            (cstr "ACGT" ++ repeat " "%char 1019) 0 Indeterminate).
Proof.
  apply (@getNext_splits_long_line _ (ConstantLengthKmerHelper_IOHelper 64)
           sample_helper (cstr "ACGT" ++ repeat " "%char 1019) long_line_rest
           0 Indeterminate).
  - reflexivity.
  - reflexivity.
Defined.

(** C7 as stated fails: a line of 1036 bytes, ["ACGT"], 1030 blanks,
    ["7"] and a newline, is read without any error as two lines.  The
    first call returns [true] with the key of ["ACGT"] and no value; the
    second call finds the remaining blanks and ["7"] and returns
    [false]. *)
Lemma long_line_read_as_two :
  (1024 <? length long_line)%nat = true
  /\ @KmerFileReader.getNext _ (ConstantLengthKmerHelper_IOHelper 64)
       (KmerFileReader.mk (Open long_line) sample_helper) 0 Indeterminate
     = Some (KmerFileReader.mk (Open long_line_rest) sample_helper,
             (true, 27, Indeterminate))
  /\ @KmerFileReader.getNext _ (ConstantLengthKmerHelper_IOHelper 64)
       (KmerFileReader.mk (Open long_line_rest) sample_helper) 27 Indeterminate
     = Some (KmerFileReader.mk (Open []) sample_helper,
             (false, 27, Indeterminate)).
Proof. vm_compute. repeat split. Qed.

(** ** Human-readable sizes *)

Lemma digit_char_spec d :
  0 <= d < 10 ->
  isdigit (digit_char d) = true /\ digit_value (digit_char d) = d.
Proof.
  intros Hd.
  assert (Hcases : d = 0 \/ d = 1 \/ d = 2 \/ d = 3 \/ d = 4 \/ d = 5
                   \/ d = 6 \/ d = 7 \/ d = 8 \/ d = 9) by lia.
  repeat (destruct Hcases as [-> | Hcases]; [now split |]).
  subst d. now split.
Qed.

Lemma mod10_digit n : 0 <= n mod 10 < 10.
Proof. apply Z.mod_pos_bound. lia. Qed.

Lemma decimal_sum_cons_value d acc :
  decimal_sum (d :: acc)
  = digit_value d * 10 ^ Z.of_nat (length acc) + decimal_sum acc.
Proof. reflexivity. Qed.

Lemma uint_digits_isdigit fuel : forall n acc,
  forallb isdigit acc = true -> forallb isdigit (uint_digits fuel n acc) = true.
Proof.
  induction fuel as [| fuel IH]; intros n acc Hacc; [exact Hacc |].
  cbn [uint_digits].
  assert (Hacc' : forallb isdigit (digit_char (n mod 10) :: acc) = true).
  { cbn [forallb]. rewrite Hacc.
    now rewrite (proj1 (digit_char_spec _ (mod10_digit n))). }
  destruct (n <? 10); [exact Hacc' | now apply IH].
Qed.

Lemma uint_digits_nonempty fuel n acc :
  acc <> [] \/ fuel <> O -> uint_digits fuel n acc <> [].
Proof.
  revert n acc. induction fuel as [| fuel IH]; intros n acc Hne.
  - cbn. destruct Hne; [trivial | congruence].
  - cbn [uint_digits]. destruct (n <? 10); [discriminate |].
    apply IH. left. discriminate.
Qed.

Lemma uint_digits_value fuel : forall n acc,
  0 <= n < 10 ^ Z.of_nat fuel ->
  decimal_sum (uint_digits fuel n acc)
  = n * 10 ^ Z.of_nat (length acc) + decimal_sum acc.
Proof.
  induction fuel as [| fuel IH]; intros n acc Hn.
  - cbn in Hn. cbn [uint_digits]. replace n with 0 by lia. lia.
  - cbn [uint_digits].
    pose proof (mod10_digit n) as Hmod.
    pose proof (Z.div_mod n 10 ltac:(lia)) as Hdm.
    assert (Hpow : 0 < 10 ^ Z.of_nat (length acc)) by (apply Z.pow_pos_nonneg; lia).
    destruct (Z.ltb_spec n 10) as [Hlt | Hge].
    + rewrite decimal_sum_cons_value, (proj2 (digit_char_spec _ Hmod)).
      rewrite Z.mod_small by lia. reflexivity.
    + rewrite IH.
      * rewrite decimal_sum_cons_value, (proj2 (digit_char_spec _ Hmod)).
        cbn [length]. rewrite Nat2Z.inj_succ, Z.pow_succ_r by lia.
        rewrite Hdm at 3. ring.
      * rewrite Nat2Z.inj_succ, Z.pow_succ_r in Hn by lia.
        split; [apply Z.div_pos; lia |].
        apply Z.div_lt_upper_bound; lia.
Qed.

(** [ss << n] writes a decimal numeral of [n]. *)
Lemma put_uint_decimal n : 0 <= n < 2 ^ 64 -> decimal_of n (put_uint n).
Proof.
  intros Hn. unfold decimal_of, put_uint. split; [| split].
  - apply uint_digits_nonempty. right. discriminate.
  - now apply uint_digits_isdigit.
  - rewrite uint_digits_value.
    + cbn [length decimal_sum Z.of_nat]. rewrite Z.pow_0_r. lia.
    + assert (2 ^ 64 < 10 ^ Z.of_nat 20) by reflexivity. lia.
Qed.

Lemma isdigit_no_space l : forallb isdigit l = true -> no_space l = true.
Proof.
  unfold no_space. induction l as [| c l IH]; [reflexivity |].
  cbn [forallb]. intros Hl. apply andb_true_iff in Hl as [Hc Hl].
  now rewrite (digit_not_space c Hc), IH.
Qed.

Lemma no_space_app a b : no_space (a ++ b) = no_space a && no_space b.
Proof. apply forallb_app. Qed.

Lemma put_uint_no_space n : no_space (put_uint n) = true.
Proof. apply isdigit_no_space. now apply uint_digits_isdigit. Qed.

Lemma fixed_digits_no_space width : forall n acc,
  no_space acc = true -> no_space (fixed_digits width n acc) = true.
Proof.
  induction width as [| width IH]; intros n acc Hacc; [exact Hacc |].
  cbn [fixed_digits]. apply IH. unfold no_space in *. cbn [forallb].
  rewrite Hacc, andb_true_r.
  now rewrite (digit_not_space _ (proj1 (digit_char_spec _ (mod10_digit n)))).
Qed.

Lemma strip_zeros_no_space l : no_space l = true -> no_space (strip_zeros l) = true.
Proof.
  unfold no_space. induction l as [| c l IH]; [reflexivity |].
  cbn [forallb strip_zeros]. intros Hl. apply andb_true_iff in Hl as [Hc Hl].
  specialize (IH Hl).
  destruct (strip_zeros l) as [| c' r].
  - destruct (chr_eqb c "0"); [reflexivity |]. cbn. now rewrite Hc.
  - cbn [forallb] in *. now rewrite Hc, IH.
Qed.

Lemma fraction_no_space frac :
  no_space frac = true ->
  no_space (match frac with [] => [] | _ => "."%char :: frac end) = true.
Proof.
  destruct frac as [| c frac]; [reflexivity |].
  intros Hf. unfold no_space in *. cbn [forallb] in *. now rewrite Hf.
Qed.

(** [ss << d] writes no white space. *)
Lemma put_double_no_space prec num den : no_space (put_double prec num den) = true.
Proof.
  unfold put_double.
  destruct (if 10 ^ prec <=? _ then _ else _) as [m x].
  destruct (x <? prec).
  - rewrite no_space_app, put_uint_no_space. cbn [andb].
    apply fraction_no_space, strip_zeros_no_space. now apply fixed_digits_no_space.
  - rewrite !no_space_app, put_uint_no_space. cbn [andb].
    rewrite fraction_no_space
      by (apply strip_zeros_no_space; now apply fixed_digits_no_space).
    cbn [andb]. change (no_space ("e"%char :: "+"%char :: ?l)) with (no_space l).
    now apply fixed_digits_no_space.
Qed.

(** [ss >> s] returns the whole content when it holds no white space. *)
Lemma extract_whole l : no_space l = true -> extract l = l.
Proof.
  unfold extract, no_space. intros Hl.
  assert (Hskip : skip_space l = l).
  { destruct l as [| c l]; [reflexivity |].
    cbn in *. apply andb_true_iff in Hl as [Hc _].
    apply negb_true_iff in Hc. now rewrite Hc. }
  rewrite Hskip. induction l as [| c l IH]; [reflexivity |].
  cbn in *. apply andb_true_iff in Hl as [Hc Hl].
  apply negb_true_iff in Hc. rewrite Hc. f_equal. apply IH; trivial.
  destruct l as [| c' l]; [reflexivity |].
  cbn in *. apply andb_true_iff in Hl as [Hc' _].
  apply negb_true_iff in Hc'. now rewrite Hc'.
Qed.

Lemma extract_suffixed body c :
  no_space body = true -> isspace c = false -> extract (body ++ [c]) = body ++ [c].
Proof.
  intros Hbody Hc. apply extract_whole.
  rewrite no_space_app, Hbody. cbn. now rewrite Hc.
Qed.

(** C9.  [human 0 = "0"], [human 1024 = "1024"],
    [human 1048576 = "1024K"]; and for every 64-bit [n]: up to 1024 the
    result is the decimal numeral of [n]; above 10240 and up to 1048576
    it is the decimal numeral of [n / 1024] and ["K"]; above 10485760
    and up to 1073741824 it is the decimal numeral of [n / 1048576] and
    ["M"]; above 1073741824 it ends in ["G"]. *)
Theorem human_boundaries (n : Z) :
  0 <= n < 2 ^ 64 ->
  human 0 = "0"%string
  /\ human 1024 = "1024"%string
  /\ human 1048576 = "1024K"%string
  /\ (n <= 1024 ->
      human n = string_of_list_ascii (put_uint n)
      /\ decimal_of n (put_uint n))
  /\ (10240 < n <= 1048576 ->
      human n = string_of_list_ascii (put_uint (n / 1024) ++ ["K"%char])
      /\ decimal_of (n / 1024) (put_uint (n / 1024)))
  /\ (10485760 < n <= 1073741824 ->
      human n = string_of_list_ascii (put_uint (n / 1048576) ++ ["M"%char])
      /\ decimal_of (n / 1048576) (put_uint (n / 1048576)))
  /\ (1073741824 < n ->
      exists body, human n = string_of_list_ascii (body ++ ["G"%char])).
Proof.
  intros Hn.
  assert (Hdiv : forall d, 0 < d -> 0 <= n / d < 2 ^ 64).
  { intros d Hd. split; [apply Z.div_pos; lia |].
    apply Z.div_lt_upper_bound; [lia |].
    assert (0 < 2 ^ 64) by reflexivity. nia. }
  split; [reflexivity |]. split; [reflexivity |]. split; [reflexivity |].
  unfold human. change (Z.shiftl 1048576 10) with 1073741824.
  split; [| split; [| split]].
  - intros Hle. destruct (Z.leb_spec n 1024); [| lia].
    rewrite extract_whole by apply put_uint_no_space.
    split; [reflexivity | now apply put_uint_decimal].
  - intros Hrange.
    destruct (Z.leb_spec n 1024); [lia |].
    destruct (Z.leb_spec n 10240); [lia |].
    destruct (Z.leb_spec n 1048576); [| lia].
    rewrite extract_suffixed by (trivial; apply put_uint_no_space).
    split; [reflexivity | apply put_uint_decimal, Hdiv; lia].
  - intros Hrange.
    destruct (Z.leb_spec n 1024); [lia |].
    destruct (Z.leb_spec n 10240); [lia |].
    destruct (Z.leb_spec n 1048576); [lia |].
    destruct (Z.leb_spec n 10485760); [lia |].
    destruct (Z.leb_spec n 1073741824); [| lia].
    rewrite extract_suffixed by (trivial; apply put_uint_no_space).
    split; [reflexivity | apply put_uint_decimal, Hdiv; lia].
  - intros Hgt.
    destruct (Z.leb_spec n 1024); [lia |].
    destruct (Z.leb_spec n 10240); [lia |].
    destruct (Z.leb_spec n 1048576); [lia |].
    destruct (Z.leb_spec n 10485760); [lia |].
    destruct (Z.leb_spec n 1073741824); [lia |].
    eexists.
    rewrite extract_suffixed by (trivial; apply put_double_no_space).
    reflexivity.
Qed.

Lemma human_boundaries_witness :
  exists body, human (2 ^ 31) = string_of_list_ascii (body ++ ["G"%char]).
Proof.
  destruct (human_boundaries (2 ^ 31)) as (_ & _ & _ & _ & _ & _ & HG).
  - split; [discriminate | reflexivity].
  - apply HG. reflexivity.
Defined.

(** * Further properties of the code *)

(** ** Key codec: long runs, injectivity, the key-only variant *)

Section CodecMore.

Import ConstantLengthKmerHelper.

Lemma symbol_value_range c : 0 <= symbol_value c <= 3.
Proof.
  unfold symbol_value.
  destruct (chr_eqb c "A"); [lia |]. destruct (chr_eqb c "C"); [lia |].
  destruct (chr_eqb c "G"); [lia |]. destruct (chr_eqb c "T"); lia.
Qed.

Lemma kmer_sum_range run : 0 <= kmer_sum run < 4 ^ Z.of_nat (length run).
Proof.
  induction run as [| c run IH]; [cbn; lia |].
  cbn [kmer_sum length]. rewrite Nat2Z.inj_succ, Z.pow_succ_r by lia.
  pose proof (symbol_value_range c). nia.
Qed.

Lemma kmer_sum_app a b :
  kmer_sum (a ++ b) = kmer_sum a * 4 ^ Z.of_nat (length b) + kmer_sum b.
Proof.
  induction a as [| c a IH]; [cbn [app kmer_sum]; lia |].
  cbn [app kmer_sum]. rewrite IH, length_app, Nat2Z.inj_add.
  rewrite Z.pow_add_r by lia. ring.
Qed.

Lemma symbol_value_inj c1 c2 :
  is_ACGT c1 = true -> is_ACGT c2 = true ->
  symbol_value c1 = symbol_value c2 -> c1 = c2.
Proof.
  intros H1 H2.
  destruct (is_ACGT_cases c1 H1) as [-> | [-> | [-> | ->]]];
    destruct (is_ACGT_cases c2 H2) as [-> | [-> | [-> | ->]]];
    cbn; intros Heq; try reflexivity; discriminate Heq.
Qed.

Lemma kmer_sum_inj r1 : forall r2,
  length r1 = length r2 ->
  forallb is_ACGT r1 = true -> forallb is_ACGT r2 = true ->
  kmer_sum r1 = kmer_sum r2 -> r1 = r2.
Proof.
  induction r1 as [| c1 r1 IH]; intros [| c2 r2] Hlen H1 H2 Hsum;
    try discriminate Hlen; [reflexivity |].
  cbn [forallb] in H1, H2.
  apply andb_true_iff in H1 as [Hc1 H1]. apply andb_true_iff in H2 as [Hc2 H2].
  injection Hlen as Hlen. cbn [kmer_sum] in Hsum. rewrite Hlen in Hsum.
  pose proof (kmer_sum_range r1) as Hr1. pose proof (kmer_sum_range r2) as Hr2.
  rewrite Hlen in Hr1.
  pose proof (symbol_value_range c1). pose proof (symbol_value_range c2).
  assert (Hv : symbol_value c1 = symbol_value c2) by nia.
  rewrite Hv in Hsum.
  f_equal; [now apply symbol_value_inj | apply IH; trivial; lia].
Qed.

Lemma incr_mod W x : incr W (x mod 2 ^ W) = (x + 1) mod 2 ^ W.
Proof. unfold incr, wrap. apply Zplus_mod_idemp_l. Qed.

(** The loop on a run of any length: every step is taken modulo the
    width of the key type. *)
Lemma scan_run_mod W run : forall ret rest,
  0 <= W -> forallb is_ACGT run = true -> bad_start rest = true ->
  0 <= ret < 2 ^ W ->
  scan W (run ++ rest) ret
  = ((ret * 4 ^ Z.of_nat (length run) + kmer_sum run) mod 2 ^ W, rest).
Proof.
  induction run as [| c run IH]; intros ret rest HW Hrun Hrest Hret.
  - cbn [app length kmer_sum Z.of_nat]. rewrite Z.pow_0_r, Z.mul_1_r, Z.add_0_r.
    rewrite Z.mod_small by trivial.
    destruct rest as [| c rest]; [reflexivity |].
    cbn in Hrest. cbn [scan]. destruct (is_ACGT c); [discriminate | reflexivity].
  - cbn [forallb] in Hrun. apply andb_true_iff in Hrun as [Hc Hrun].
    cbn [app scan]. rewrite Hc.
    assert (Hpos : 0 < 2 ^ W) by (apply Z.pow_pos_nonneg; lia).
    assert (Hstep : add_symbol W c (wrap W (Z.shiftl ret 2))
                    = (4 * ret + symbol_value c) mod 2 ^ W).
    { rewrite Z.shiftl_mul_pow2 by lia. change (2 ^ 2) with 4.
      unfold add_symbol, symbol_value.
      change (wrap W (ret * 4)) with ((ret * 4) mod 2 ^ W).
      destruct (is_ACGT_cases c Hc) as [-> | [-> | [-> | ->]]];
        simpl (chr_eqb _ _); cbv iota;
        rewrite ?incr_mod; f_equal; lia. }
    rewrite Hstep, IH; trivial; [| apply Z.mod_pos_bound; lia].
    f_equal. cbn [length kmer_sum]. rewrite Nat2Z.inj_succ, Z.pow_succ_r by lia.
    rewrite <- (Zplus_mod_idemp_l (_ mod 2 ^ W * _)).
    rewrite Zmult_mod_idemp_l, Zplus_mod_idemp_l.
    f_equal. ring.
Qed.

End CodecMore.

Lemma convert_bad_start W s k v :
  bad_start s = true -> ConstantLengthKmerHelper.convert W s k v = (false, k, v).
Proof.
  unfold ConstantLengthKmerHelper.convert, bad_start.
  destruct s as [| c s]; [reflexivity |].
  destruct (ConstantLengthKmerHelper.is_ACGT c); [discriminate | reflexivity].
Qed.

(** [convert] on a line that starts with a non-empty run: the key is
    what the loop computes, the value what [sscanf] finds after it. *)
Lemma convert_run_scan W run rest k v key :
  run <> [] -> forallb ConstantLengthKmerHelper.is_ACGT run = true ->
  ConstantLengthKmerHelper.scan W (run ++ rest) 0 = (key, rest) ->
  ConstantLengthKmerHelper.convert W (run ++ rest) k v
  = (true, key, sscanf_d rest Indeterminate).
Proof.
  intros Hne Hrun Hscan.
  destruct run as [| c run]; [congruence |].
  cbn [forallb] in Hrun. apply andb_true_iff in Hrun as [Hc _].
  unfold ConstantLengthKmerHelper.convert.
  change ((c :: run) ++ rest) with (c :: (run ++ rest)) at 1.
  cbv iota beta. rewrite Hc.
  change (c :: (run ++ rest)) with ((c :: run) ++ rest).
  now rewrite Hscan.
Qed.

Lemma convert_run_key W run rest k v :
  run <> [] -> forallb ConstantLengthKmerHelper.is_ACGT run = true ->
  2 * Z.of_nat (length run) <= W -> bad_start rest = true ->
  ConstantLengthKmerHelper.convert W (run ++ rest) k v
  = (true, kmer_sum run, sscanf_d rest Indeterminate).
Proof.
  intros Hne Hrun HW Hrest.
  apply convert_run_scan; trivial.
  rewrite scan_run; trivial; [lia |].
  rewrite Z.add_0_l, Z.mul_1_l, pow4 by lia.
  apply Z.pow_le_mono_r; lia.
Qed.

(** X1.  On a key type of [2m] bits a run of any length is converted
    to the key of its last [m] symbols (the whole run when it has at
    most [m]): the earlier symbols are shifted out, and the result is
    the positional sum of the run modulo [2^(2m)]. *)
Theorem convert_keeps_last_symbols (m : nat) (run rest : list ascii)
    (k : Z) (v : slot) :
  (1 < m)%nat -> run <> [] ->
  forallb ConstantLengthKmerHelper.is_ACGT run = true ->
  bad_start rest = true ->
  ConstantLengthKmerHelper.convert (2 * Z.of_nat m) (run ++ rest) k v
  = (true, kmer_sum (drop (length run - m) run), sscanf_d rest Indeterminate)
  /\ kmer_sum (drop (length run - m) run)
     = kmer_sum run mod 2 ^ (2 * Z.of_nat m).
Proof.
  intros Hm Hne Hrun Hrest.
  assert (Hmod : kmer_sum (drop (length run - m) run)
                 = kmer_sum run mod 2 ^ (2 * Z.of_nat m)).
  { rewrite <- pow4 by lia.
    assert (Hsplit : kmer_sum run
                     = kmer_sum (take (length run - m) run)
                       * 4 ^ Z.of_nat (length (drop (length run - m) run))
                       + kmer_sum (drop (length run - m) run))
      by now rewrite <- kmer_sum_app, take_drop.
    rewrite Hsplit, length_drop. clear Hsplit.
    pose proof (kmer_sum_range (drop (length run - m) run)) as Hd.
    rewrite length_drop in Hd.
    destruct (le_lt_dec m (length run)) as [Hle | Hlt].
    - replace (length run - (length run - m))%nat with m in * by lia.
      rewrite Z.add_comm, Z.mod_add by lia. now rewrite Z.mod_small.
    - replace (length run - m)%nat with 0%nat in * by lia.
      rewrite take_0. cbn [kmer_sum]. rewrite Z.mul_0_l, Z.add_0_l.
      rewrite Z.mod_small; [reflexivity |].
      rewrite Nat.sub_0_r in Hd.
      assert (4 ^ Z.of_nat (length run) <= 4 ^ Z.of_nat m)
        by (apply Z.pow_le_mono_r; lia).
      lia. }
  split; [| exact Hmod].
  rewrite Hmod. apply convert_run_scan; trivial.
  rewrite scan_run_mod; trivial; [lia |].
  split; [lia | apply Z.pow_pos_nonneg; lia].
Qed.

Lemma convert_keeps_last_symbols_witness :
  ConstantLengthKmerHelper.convert 8 (cstr "TACGT 9") 0 Indeterminate
  = (true, kmer_sum (cstr "ACGT"), Value 9).
Proof.
  apply (convert_keeps_last_symbols 4 (cstr "TACGT") (cstr " 9") 0 Indeterminate).
  - lia.
  - discriminate.
  - reflexivity.
  - reflexivity.
Defined.

(** X2.  On runs of one length [L] that fits the key type the encoding
    is injective: two lines on which [convert] yields the same key start
    with the same run, and the key lies in [[0, 4^L)]. *)
Theorem convert_same_key_same_run (W : Z) (r1 r2 rest1 rest2 : list ascii)
    (k : Z) (v : slot) (key : Z) (v1 v2 : slot) :
  length r1 = length r2 ->
  2 * Z.of_nat (length r1) <= W ->
  forallb ConstantLengthKmerHelper.is_ACGT r1 = true ->
  forallb ConstantLengthKmerHelper.is_ACGT r2 = true ->
  bad_start rest1 = true -> bad_start rest2 = true ->
  ConstantLengthKmerHelper.convert W (r1 ++ rest1) k v = (true, key, v1) ->
  ConstantLengthKmerHelper.convert W (r2 ++ rest2) k v = (true, key, v2) ->
  r1 = r2 /\ 0 <= key < 4 ^ Z.of_nat (length r1).
Proof.
  intros Hlen HW H1 H2 Hrest1 Hrest2 Hc1 Hc2.
  destruct r1 as [| c1 r1].
  { cbn [app] in Hc1. rewrite convert_bad_start in Hc1 by trivial. discriminate Hc1. }
  destruct r2 as [| c2 r2]; [discriminate Hlen |].
  rewrite convert_run_key in Hc1 by (trivial; discriminate).
  rewrite convert_run_key in Hc2 by (trivial; try discriminate; rewrite <- Hlen; trivial).
  injection Hc1 as Hk1 _. injection Hc2 as Hk2 _.
  split.
  - apply kmer_sum_inj; trivial. cbn [kmer_sum]. congruence.
  - rewrite <- Hk1. apply (kmer_sum_range (c1 :: r1)).
Qed.

Lemma convert_same_key_same_run_witness :
  cstr "ACGT" = cstr "ACGT" /\ 0 <= 27 < 4 ^ Z.of_nat (length (cstr "ACGT")).
Proof.
  apply (convert_same_key_same_run 64 (cstr "ACGT") (cstr "ACGT")
           (cstr " 1") (cstr " 22") 0 Indeterminate 27 (Value 1) (Value 22));
    try reflexivity.
  cbn. lia.
Defined.

(** X3.  The key-only [convert(s, k)] succeeds on every line that
    starts with a run fitting the key type, whatever follows the run (a
    number, something else, or nothing), and yields the key of the run;
    on what follows alone it returns [false] and leaves the key of the
    caller as it was. *)
Theorem convert_key_skips_value (W : Z) (run rest : list ascii) (k : Z) :
  run <> [] ->
  forallb ConstantLengthKmerHelper.is_ACGT run = true ->
  2 * Z.of_nat (length run) <= W ->
  bad_start rest = true ->
  ConstantLengthKmerHelper.convert_key W (run ++ rest) k = (true, kmer_sum run)
  /\ ConstantLengthKmerHelper.convert_key W rest k = (false, k).
Proof.
  intros Hne Hrun HW Hrest. unfold ConstantLengthKmerHelper.convert_key.
  rewrite convert_run_key by trivial.
  now rewrite convert_bad_start by trivial.
Qed.

Lemma convert_key_skips_value_witness :
  ConstantLengthKmerHelper.convert_key 64 (cstr "ACGT" ++ cstr ";no count") 5
  = (true, kmer_sum (cstr "ACGT"))
  /\ ConstantLengthKmerHelper.convert_key 64 (cstr ";no count") 5 = (false, 5).
Proof.
  apply (convert_key_skips_value 64 (cstr "ACGT") (cstr ";no count") 5).
  - discriminate.
  - reflexivity.
  - cbn. lia.
  - reflexivity.
Defined.

(** ** Group partitioner on k-mers and on arbitrary keys *)

(** [splitgrp] on any key of the key type, for any configuration whose
    shift count is in range: the group id is cut to 32 bits. *)
Lemma split_general W L B key :
  0 <= L <= 255 -> 0 <= B <= 255 -> 0 <= 2 * L - B < W ->
  0 <= key < 2 ^ W ->
  ConstantLengthKmerHelper.splitgrp W (ConstantLengthKmerHelper.new L B) key
  = Some ((key / 2 ^ (2 * L - B)) mod 2 ^ 32, key mod 2 ^ (2 * L - B)).
Proof.
  intros HL HB Hmv Hkey.
  unfold ConstantLengthKmerHelper.splitgrp, ConstantLengthKmerHelper.new.
  cbn [ConstantLengthKmerHelper.kmerlength ConstantLengthKmerHelper.splitbit].
  rewrite !(wrap_small 8) by (change (2 ^ 8) with 256; lia).
  set (mv := 2 * L - B) in *.
  rewrite shr_defined, shl_defined by trivial. cbn [mbind option_bind].
  rewrite Z.shiftr_div_pow2, Z.shiftl_1_l by lia.
  assert (Hpw : 0 < 2 ^ mv < 2 ^ W).
  { split; [apply Z.pow_pos_nonneg; lia | apply Z.pow_lt_mono_r; lia]. }
  rewrite (wrap_small W (2 ^ mv)) by lia.
  rewrite (wrap_small W (2 ^ mv - 1)) by lia.
  now rewrite land_lowmask by lia.
Qed.

(** X4.  [convert] and [splitgrp] together: with an even splitbit [2b]
    the key of a k-mer is split into the key of its first [b] symbols
    (the group id) and the key of the remaining symbols. *)
Theorem splitgrp_splits_kmer (W : Z) (b : nat) (run : list ascii) :
  forallb ConstantLengthKmerHelper.is_ACGT run = true ->
  (b <= length run)%nat -> (length run <= 255)%nat ->
  2 * Z.of_nat (length run) <= W ->
  2 * Z.of_nat b <= 32 ->
  2 * Z.of_nat (length run) - 2 * Z.of_nat b < W ->
  ConstantLengthKmerHelper.splitgrp W
    (ConstantLengthKmerHelper.new (Z.of_nat (length run)) (2 * Z.of_nat b))
    (kmer_sum run)
  = Some (kmer_sum (take b run), kmer_sum (drop b run)).
Proof.
  intros Hrun Hb H255 HW H32 Hlt.
  pose proof (kmer_sum_range run) as Hkey.
  pose proof (kmer_sum_range (take b run)) as Htake.
  pose proof (kmer_sum_range (drop b run)) as Hdrop.
  rewrite length_take in Htake. rewrite length_drop in Hdrop.
  replace (b `min` length run)%nat with b in Htake by lia.
  rewrite split_defined by (trivial; lia).
  assert (Hsplit : kmer_sum run
                   = kmer_sum (take b run) * 4 ^ Z.of_nat (length run - b)
                     + kmer_sum (drop b run)).
  { rewrite <- (length_drop run b), <- kmer_sum_app. now rewrite take_drop. }
  replace (2 * Z.of_nat (length run) - 2 * Z.of_nat b)
    with (2 * Z.of_nat (length run - b)) by lia.
  rewrite <- pow4 by lia.
  assert (Hpos : 0 < 4 ^ Z.of_nat (length run - b)) by (apply Z.pow_pos_nonneg; lia).
  rewrite Hsplit. f_equal. f_equal.
  - rewrite Z.div_add_l by lia. rewrite Z.div_small by lia. lia.
  - rewrite Z.add_comm, Z.mod_add by lia. now apply Z.mod_small.
Qed.

Lemma splitgrp_splits_kmer_witness :
  ConstantLengthKmerHelper.splitgrp 64
    (ConstantLengthKmerHelper.new (Z.of_nat (length (cstr "ACGT"))) (2 * Z.of_nat 1))
    (kmer_sum (cstr "ACGT"))
  = Some (kmer_sum (take 1 (cstr "ACGT")), kmer_sum (drop 1 (cstr "ACGT"))).
Proof.
  apply (splitgrp_splits_kmer 64 1 (cstr "ACGT")).
  - reflexivity.
  - cbn. lia.
  - cbn. lia.
  - cbn. lia.
  - lia.
  - cbn. lia.
Defined.

(** X5.  For any configuration whose shift count [2L-B] is in range and
    any key of the key type, splitting and recombining yields the key
    modulo [2^(2L-B+32)]: exactly the bits that a 32-bit group id cannot
    hold are lost, so the key comes back unchanged if and only if it is
    below [2^(2L-B+32)]. *)
Theorem split_then_combine (W L B key : Z) :
  0 <= L <= 255 -> 0 <= B <= 255 -> 0 <= 2 * L - B < W ->
  0 <= key < 2 ^ W ->
  exists grp keyInGroup,
    ConstantLengthKmerHelper.splitgrp W (ConstantLengthKmerHelper.new L B) key
    = Some (grp, keyInGroup)
    /\ ConstantLengthKmerHelper.combgrp W (ConstantLengthKmerHelper.new L B)
         grp keyInGroup
       = Some (key mod 2 ^ (2 * L - B + 32))
    /\ (key mod 2 ^ (2 * L - B + 32) = key <-> key < 2 ^ (2 * L - B + 32)).
Proof.
  intros HL HB Hmv Hkey.
  exists ((key / 2 ^ (2 * L - B)) mod 2 ^ 32), (key mod 2 ^ (2 * L - B)).
  split; [now apply split_general |].
  set (mv := 2 * L - B) in *.
  assert (Hpw : 0 < 2 ^ mv) by (apply Z.pow_pos_nonneg; lia).
  assert (H32 : 0 < 2 ^ 32) by reflexivity.
  assert (Hbig : 0 < 2 ^ (mv + 32)) by (apply Z.pow_pos_nonneg; lia).
  split.
  - unfold ConstantLengthKmerHelper.combgrp, ConstantLengthKmerHelper.new.
    cbn [ConstantLengthKmerHelper.kmerlength ConstantLengthKmerHelper.splitbit].
    rewrite !(wrap_small 8) by (change (2 ^ 8) with 256; lia).
    fold mv.
    pose proof (Z.mod_pos_bound (key / 2 ^ mv) (2 ^ 32) H32) as Hg.
    pose proof (Z.mod_pos_bound key (2 ^ mv) Hpw) as Hr.
    assert (Hq : 0 <= key / 2 ^ mv) by (apply Z.div_pos; lia).
    assert (Hgle : (key / 2 ^ mv) mod 2 ^ 32 <= key / 2 ^ mv)
      by (apply Z.mod_le; lia).
    assert (Hqle : key / 2 ^ mv * 2 ^ mv <= key).
    { pose proof (Z.div_mod key (2 ^ mv)). lia. }
    assert (Hprod : 0 <= (key / 2 ^ mv) mod 2 ^ 32 * 2 ^ mv <= key) by nia.
    assert (Hqk : key / 2 ^ mv <= key).
    { apply Z.div_le_upper_bound; [lia | nia]. }
    rewrite (wrap_small W) by lia.
    rewrite shl_defined by trivial. cbn [mbind option_bind].
    rewrite Z.shiftl_mul_pow2 by lia.
    rewrite (wrap_small W) by lia.
    rewrite lor_shiftl_low by lia.
    f_equal. rewrite Z.pow_add_r by lia.
    rewrite Z.rem_mul_r by lia. lia.
  - split; intros Hk.
    + pose proof (Z.mod_pos_bound key (2 ^ (mv + 32)) Hbig). lia.
    + apply Z.mod_small. lia.
Qed.

Lemma split_then_combine_witness :
  exists grp keyInGroup,
    ConstantLengthKmerHelper.splitgrp 64 (ConstantLengthKmerHelper.new 20 40) (2 ^ 39 + 5)
    = Some (grp, keyInGroup)
    /\ ConstantLengthKmerHelper.combgrp 64 (ConstantLengthKmerHelper.new 20 40)
         grp keyInGroup
       = Some ((2 ^ 39 + 5) mod 2 ^ (2 * 20 - 40 + 32))
    /\ ((2 ^ 39 + 5) mod 2 ^ (2 * 20 - 40 + 32) = 2 ^ 39 + 5
        <-> 2 ^ 39 + 5 < 2 ^ (2 * 20 - 40 + 32)).
Proof.
  apply (split_then_combine 64 20 40 (2 ^ 39 + 5)); lia.
Defined.

(** X6.  Partitioning keeps the order of keys: for keys below
    [2^(2L-B+32)], comparing two keys is the same as comparing their
    group ids and, within one group, their remainders. *)
Theorem splitgrp_keeps_order (W L B k1 k2 g1 r1 g2 r2 : Z) :
  0 <= L <= 255 -> 0 <= B <= 255 -> 0 <= 2 * L - B < W ->
  0 <= k1 < 2 ^ W -> 0 <= k2 < 2 ^ W ->
  k1 < 2 ^ (2 * L - B + 32) -> k2 < 2 ^ (2 * L - B + 32) ->
  ConstantLengthKmerHelper.splitgrp W (ConstantLengthKmerHelper.new L B) k1
  = Some (g1, r1) ->
  ConstantLengthKmerHelper.splitgrp W (ConstantLengthKmerHelper.new L B) k2
  = Some (g2, r2) ->
  (k1 < k2 <-> g1 < g2 \/ (g1 = g2 /\ r1 < r2)).
Proof.
  intros HL HB Hmv Hk1 Hk2 Hs1 Hs2 H1 H2.
  rewrite split_general in H1, H2 by trivial.
  injection H1 as <- <-. injection H2 as <- <-.
  set (P := 2 ^ (2 * L - B)) in *.
  assert (HP : 0 < P) by (apply Z.pow_pos_nonneg; lia).
  assert (Hq : forall k, 0 <= k < 2 ^ (2 * L - B + 32) ->
                         (k / P) mod 2 ^ 32 = k / P).
  { intros k Hk. apply Z.mod_small. split; [apply Z.div_pos; lia |].
    apply Z.div_lt_upper_bound; [lia |].
    unfold P. rewrite <- Z.pow_add_r by lia. lia. }
  rewrite !Hq by lia.
  pose proof (Z.div_mod k1 P ltac:(lia)) as E1.
  pose proof (Z.div_mod k2 P ltac:(lia)) as E2.
  pose proof (Z.mod_pos_bound k1 P HP) as B1.
  pose proof (Z.mod_pos_bound k2 P HP) as B2.
  split.
  - intros Hlt.
    destruct (Z.lt_trichotomy (k1 / P) (k2 / P)) as [Hl | [He | Hg]].
    + now left.
    + right. split; [exact He |]. rewrite He in E1. lia.
    + exfalso. nia.
  - intros [Hl | [He Hr]]; [nia |]. rewrite He in E1. lia.
Qed.

Lemma splitgrp_keeps_order_witness :
  107 < 200 <-> 1 < 3 \/ (1 = 3 /\ 43 < 8).
Proof.
  apply (splitgrp_keeps_order 64 4 2 107 200 1 43 3 8); try lia; reflexivity.
Defined.

(** ** Binary writer: blocks, and a writer without an open file *)

Section WriterMore.

Import BinaryKmerWriter.
Context {KV : Type}.
Implicit Types (w : BinaryKmerWriter.t KV) (p : KV) (l : list KV).

(** A [write] keeps the stream a whole number of blocks long. *)
Lemma write_keeps_blocks w p w' data :
  write w p = Some w' -> f w = Open data ->
  (length data mod buflen = 0)%nat -> length (buf w) = bufsize ->
  exists data', f w' = Open data' /\ (length data' mod buflen = 0)%nat.
Proof.
  destruct w as [file c b]. unfold write. cbn [f curr buf].
  intros Hw -> Hmod Hlen.
  destruct (c <? length b)%nat; [| discriminate Hw].
  destruct (Nat.eqb_spec (S c) buflen) as [Hfull | Hnot].
  - cbn [fwrite mbind option_bind] in Hw. injection Hw as <-. cbn [f].
    eexists. split; [reflexivity |].
    rewrite length_app, length_take, length_insert, Hlen.
    unfold buflen, bufsize in *.
    replace (16 `min` 1024)%nat with 16%nat by reflexivity.
    rewrite <- Nat.Div0.add_mod_idemp_l, Hmod. reflexivity.
  - injection Hw as <-. cbn [f]. now exists data.
Qed.

Lemma write_all_blocks l : forall w,
  consistent w ->
  (exists data, f w = Open data /\ (length data mod buflen = 0)%nat) ->
  exists w' data',
    write_all w l = Some w' /\ consistent w' /\ accepted w' = accepted w ++ l
    /\ f w' = Open data' /\ (length data' mod buflen = 0)%nat.
Proof.
  induction l as [| p l IH]; intros w Hw (data & Hf & Hmod); cbn [write_all].
  - exists w, data. now rewrite app_nil_r.
  - destruct (write_step w p Hw) as (w1 & Hw1 & Hc1 & Hacc1).
    destruct (write_keeps_blocks w p w1 data Hw1 Hf Hmod) as (d1 & Hf1 & Hmod1);
      [apply Hw |].
    rewrite Hw1. cbn [mbind option_bind].
    destruct (IH w1 Hc1) as (w' & data' & Hall & Hc' & Hacc' & Hf' & Hmod');
      [now exists d1 |].
    exists w', data'. repeat split; trivial; try apply Hc'.
    now rewrite Hacc', Hacc1, <- app_assoc.
Qed.

End WriterMore.

(** X7.  Records reach the stream only in whole blocks of sixteen:
    after [n] records have been written (and before [finish]) the
    stream holds exactly the first [16 * (n / 16)] of them, in order,
    and the other [n mod 16] wait in the buffer. *)
Theorem writer_flushes_whole_blocks {KV : Type} (records wbuf0 : list KV) :
  length wbuf0 = bufsize ->
  exists w,
    BinaryKmerWriter.write_all (BinaryKmerWriter.init (Open []) wbuf0) records
    = Some w
    /\ BinaryKmerWriter.f w
       = Open (take (buflen * (length records / buflen)) records)
    /\ BinaryKmerWriter.curr w = (length records mod buflen)%nat
    /\ take (BinaryKmerWriter.curr w) (BinaryKmerWriter.buf w)
       = drop (buflen * (length records / buflen)) records.
Proof.
  intros Hlen.
  destruct (write_all_blocks records _ (init_consistent wbuf0 Hlen))
    as (w & data & Hall & Hcons & Hacc & Hf & Hmod).
  { exists []. now split. }
  exists w. split; [exact Hall |].
  destruct Hcons as (_ & Hcurr & Hbuf).
  unfold BinaryKmerWriter.accepted in Hacc. rewrite Hf in Hacc.
  cbn [BinaryKmerWriter.init BinaryKmerWriter.f BinaryKmerWriter.curr
       BinaryKmerWriter.buf app] in Hacc.
  rewrite take_0 in Hacc. cbn [app] in Hacc.
  assert (Htl : length (take (BinaryKmerWriter.curr w) (BinaryKmerWriter.buf w))
                = BinaryKmerWriter.curr w).
  { rewrite length_take, Hbuf. unfold buflen, bufsize in *. lia. }
  assert (Hn : length records = (length data + BinaryKmerWriter.curr w)%nat).
  { rewrite <- Hacc, length_app, Htl. reflexivity. }
  unfold buflen in *.
  apply Nat.Div0.div_exact in Hmod.
  assert (Hq : (length records / 16 = length data / 16)%nat).
  { symmetry. apply (Nat.div_unique _ 16 _ (BinaryKmerWriter.curr w)); lia. }
  assert (Hr : (length records mod 16 = BinaryKmerWriter.curr w)%nat).
  { symmetry. apply (Nat.mod_unique _ 16 (length data / 16)); lia. }
  rewrite Hq, <- Hmod, Hr.
  split; [| split; [reflexivity |]].
  - rewrite Hf. f_equal. rewrite <- Hacc. now rewrite take_app_length.
  - rewrite <- Hacc. now rewrite drop_app_length.
Qed.

Lemma writer_flushes_whole_blocks_witness :
  exists w,
    BinaryKmerWriter.write_all (BinaryKmerWriter.init (Open []) blank_buf)
      sample_records = Some w
    /\ BinaryKmerWriter.f w
       = Open (take (buflen * (length sample_records / buflen)) sample_records)
    /\ BinaryKmerWriter.curr w = (length sample_records mod buflen)%nat
    /\ take (BinaryKmerWriter.curr w) (BinaryKmerWriter.buf w)
       = drop (buflen * (length sample_records / buflen)) sample_records.
Proof. apply (writer_flushes_whole_blocks sample_records blank_buf). reflexivity. Defined.

(** Writing to a writer whose file is not open: the records go to the
    buffer until the block is full. *)
Lemma write_all_not_open {KV : Type} (l : list KV) :
  forall w : BinaryKmerWriter.t KV,
  (forall data, BinaryKmerWriter.f w <> Open data) ->
  (BinaryKmerWriter.curr w < buflen)%nat ->
  length (BinaryKmerWriter.buf w) = bufsize ->
  ((BinaryKmerWriter.curr w + length l < buflen)%nat ->
   exists w', BinaryKmerWriter.write_all w l = Some w'
              /\ BinaryKmerWriter.f w' = BinaryKmerWriter.f w
              /\ BinaryKmerWriter.curr w'
                 = (BinaryKmerWriter.curr w + length l)%nat)
  /\ ((buflen <= BinaryKmerWriter.curr w + length l)%nat ->
      BinaryKmerWriter.write_all w l = None).
Proof.
  induction l as [| p l IH]; intros w Hclosed Hcurr Hbuf.
  - cbn [length BinaryKmerWriter.write_all]. split; [| lia].
    intros _. exists w. split; [reflexivity | split; [reflexivity | lia]].
  - cbn [length BinaryKmerWriter.write_all].
    destruct w as [file c b]. cbn [BinaryKmerWriter.f BinaryKmerWriter.curr
                                 BinaryKmerWriter.buf] in *.
    unfold BinaryKmerWriter.write.
    cbn [BinaryKmerWriter.f BinaryKmerWriter.curr BinaryKmerWriter.buf].
    destruct (Nat.ltb_spec c (length b)) as [_ | Hge];
      [| unfold buflen, bufsize in *; lia].
    destruct (Nat.eqb_spec (S c) buflen) as [Hfull | Hnot].
    + assert (Hfw : forall items : list KV, fwrite items file = None).
      { intros items. destruct file as [| data | data]; trivial.
        now destruct (Hclosed data). }
      rewrite Hfw. cbn [mbind option_bind]. split; [lia | reflexivity].
    + cbn [mbind option_bind].
      destruct (IH (BinaryKmerWriter.mk file (S c) (<[c:=p]> b))) as [Hok Hnone].
      * exact Hclosed.
      * cbn [BinaryKmerWriter.curr]. lia.
      * cbn [BinaryKmerWriter.buf]. now rewrite length_insert.
      * cbn [BinaryKmerWriter.f BinaryKmerWriter.curr] in *. split.
        -- intros Hlt. destruct Hok as (w' & Hall & Hf & Hc); [lia |].
           exists w'. split; [exact Hall | split; [exact Hf | lia]].
        -- intros Hge. apply Hnone. lia.
Qed.

(** X8.  A writer without an open file (the open failed, or [finish]
    has closed it) accepts up to fifteen records without any sign of
    failure: they are stored in the buffer and the file is not touched.
    The sixteenth [write] passes the dead file to [fwrite] and has no
    defined behaviour. *)
Theorem writer_without_file {KV : Type} (file : FILE KV) (buf0 l : list KV) :
  (forall data, file <> Open data) -> length buf0 = bufsize ->
  ((length l < buflen)%nat ->
   exists w, BinaryKmerWriter.write_all (BinaryKmerWriter.init file buf0) l = Some w
             /\ BinaryKmerWriter.f w = file
             /\ BinaryKmerWriter.curr w = length l)
  /\ ((buflen <= length l)%nat ->
      BinaryKmerWriter.write_all (BinaryKmerWriter.init file buf0) l = None).
Proof.
  intros Hclosed Hlen.
  destruct (write_all_not_open l (BinaryKmerWriter.init file buf0))
    as [Hok Hnone]; trivial.
  - cbn. unfold buflen. lia.
  - split; [exact Hok | exact Hnone].
Qed.

Lemma writer_without_file_witness :
  ((length (repeat sample_record 15) < buflen)%nat ->
   exists w,
     BinaryKmerWriter.write_all (BinaryKmerWriter.init Null blank_buf)
       (repeat sample_record 15) = Some w
     /\ BinaryKmerWriter.f w = Null
     /\ BinaryKmerWriter.curr w = length (repeat sample_record 15))
  /\ ((buflen <= length (repeat sample_record 15))%nat ->
      BinaryKmerWriter.write_all (BinaryKmerWriter.init Null blank_buf)
        (repeat sample_record 15) = None).
Proof.
  apply (writer_without_file Null blank_buf (repeat sample_record 15)).
  - discriminate.
  - reflexivity.
Defined.

(** ** Binary reader: what follows the end of the stream *)



(** ** Closing *)

(** X10.  Closing is not idempotent.  For every text reader, an explicit
    [close()] followed by the destructor (which calls [close()] again)
    passes a released or null file to [fclose] and has no defined
    behaviour; and a text or binary reader whose open failed cannot be
    destroyed with defined behaviour either. *)
Theorem close_is_not_idempotent {H KV : Type} (r : KmerFileReader.t H)
    (h : H) (buf0 : list KV) :
  (KmerFileReader.close r ≫= KmerFileReader_destroy) = None
  /\ KmerFileReader_destroy (KmerFileReader.mk Null h) = None
  /\ BinaryKmerReader_destroy (BinaryKmerReader.init Null buf0) = None.
Proof.
  repeat split.
  destruct r as [[| data | data] hr]; reflexivity.
Qed.

(** ** Text reader: a file of well-formed lines *)

Lemma fgets_chars_line body : forall n rest,
  no_newline body = true -> (length body < n)%nat ->
  fgets_chars n (body ++ newline :: rest) = (body ++ [newline], rest).
Proof.
  induction body as [| c body IH]; intros n rest Hnl Hn.
  - destruct n as [| n]; [cbn in Hn; lia |]. reflexivity.
  - destruct n as [| n]; [cbn in Hn; lia |].
    cbn in Hnl. apply andb_true_iff in Hnl as [Hc Hnl].
    apply negb_true_iff in Hc.
    cbn [app fgets_chars length] in *. rewrite Hc.
    rewrite IH by (trivial; lia). reflexivity.
Qed.

Lemma no_newline_app a b : no_newline (a ++ b) = no_newline a && no_newline b.
Proof. apply forallb_app. Qed.

Lemma ACGT_no_newline run :
  forallb ConstantLengthKmerHelper.is_ACGT run = true -> no_newline run = true.
Proof.
  unfold no_newline. induction run as [| c run IH]; [reflexivity |].
  cbn [forallb]. intros Hr. apply andb_true_iff in Hr as [Hc Hr].
  rewrite IH by trivial. rewrite andb_true_r.
  destruct (is_ACGT_cases c Hc) as [-> | [-> | [-> | ->]]]; reflexivity.
Qed.

Lemma digits_no_newline ds : forallb isdigit ds = true -> no_newline ds = true.
Proof.
  unfold no_newline. induction ds as [| c ds IH]; [reflexivity |].
  cbn [forallb]. intros Hr. apply andb_true_iff in Hr as [Hc Hr].
  rewrite IH by trivial. rewrite andb_true_r. apply negb_true_iff.
  unfold chr_eqb. destruct (Ascii.eqb_spec c newline) as [-> |]; [discriminate Hc | reflexivity].
Qed.

(** [getNext] on a stream that starts with a well-formed line. *)
Lemma getNext_good_line W (e : text_line) (rest : list ascii)
    (h : ConstantLengthKmerHelper.t) (T : Z) (V : slot) :
  good_line W e ->
  @KmerFileReader.getNext _ (ConstantLengthKmerHelper_IOHelper W)
    (KmerFileReader.mk (Open (line_chars e ++ rest)) h) T V
  = Some (KmerFileReader.mk (Open rest) h,
          (true, fst (line_record e), snd (line_record e))).
Proof.
  destruct e as [run sep sg digits].
  unfold good_line, line_chars, line_record.
  cbn [tl_run tl_sep tl_sign tl_digits fst snd].
  intros (Hne & Hrun & HW & Hsep & Hsepnl & Hdne & Hdig & Hrange & Hlen).
  destruct run as [| c run]; [congruence |].
  destruct digits as [| d digits]; [congruence |].
  assert (Hd : isdigit d = true).
  { cbn in Hdig. now apply andb_true_iff in Hdig as [? _]. }
  set (body := run ++ sep ++ sign_chars sg ++ d :: digits).
  assert (Hline : (c :: run) ++ sep ++ sign_chars sg ++ (d :: digits) ++ [newline]
                  = (c :: body) ++ [newline]).
  { unfold body. cbn [app]. now rewrite <- !app_assoc. }
  assert (Hnl : no_newline (c :: body) = true).
  { change (c :: body) with ((c :: run) ++ sep ++ sign_chars sg ++ d :: digits).
    rewrite !no_newline_app, Hsepnl.
    rewrite (ACGT_no_newline _ Hrun), (digits_no_newline _ Hdig).
    now destruct sg. }
  unfold KmerFileReader.getNext, fgets.
  cbn [KmerFileReader.f KmerFileReader.helper].
  rewrite Hline in *. rewrite <- app_assoc.
  change ((c :: body) ++ [newline] ++ rest) with (c :: (body ++ newline :: rest)).
  cbv iota.
  change (c :: (body ++ newline :: rest)) with ((c :: body) ++ newline :: rest).
  rewrite fgets_chars_line;
    [| exact Hnl | rewrite length_app in Hlen; cbn [length] in *; lia].
  cbn [mbind option_bind]. f_equal. f_equal.
  rewrite <- Hline. cbn [convert ConstantLengthKmerHelper_IOHelper].
  rewrite convert_run_key by (trivial; now apply token_bad_start).
  now rewrite sscanf_d_token.
Qed.

Lemma fgets_chars_head n c data :
  exists line rest, fgets_chars (S n) (c :: data) = (c :: line, rest).
Proof.
  cbn [fgets_chars]. destruct (chr_eqb c newline); [now eexists; eexists |].
  destruct (fgets_chars n data) as [line rest]. now eexists; eexists.
Qed.

(** [getNext] at the end of the input or at a line that starts outside
    A/C/G/T: the result is [false] in both cases. *)
Lemma getNext_bad_line W (tail : list ascii)
    (h : ConstantLengthKmerHelper.t) (T : Z) (V : slot) :
  bad_start tail = true ->
  exists r',
    @KmerFileReader.getNext _ (ConstantLengthKmerHelper_IOHelper W)
      (KmerFileReader.mk (Open tail) h) T V
    = Some (r', (false, T, V)).
Proof.
  intros Hbad. unfold KmerFileReader.getNext, fgets.
  cbn [KmerFileReader.f KmerFileReader.helper].
  destruct tail as [| c tail]; [now eexists |].
  change (1024 - 1)%nat with (S 1022).
  destruct (fgets_chars_head 1022 c tail) as (line & rest & ->).
  cbn [mbind option_bind convert ConstantLengthKmerHelper_IOHelper].
  rewrite convert_bad_start by exact Hbad. now eexists.
Qed.

(** X11.  The reading loop over a text file that starts with any number
    of well-formed lines and then ends, or goes on with a line that
    starts outside A/C/G/T: the loop hands out exactly the records of
    the well-formed lines, in order, and stops there.  A malformed line
    ends the loop just as the end of the file does; what follows it is
    not delivered. *)
Theorem read_lines_until_bad_start (W : Z) (es : list text_line)
    (tail : list ascii) (h : ConstantLengthKmerHelper.t)
    (T : Z) (V : slot) (fuel : nat) :
  Forall (good_line W) es -> bad_start tail = true ->
  (length es < fuel)%nat ->
  exists r',
    @read_lines _ (ConstantLengthKmerHelper_IOHelper W) fuel
      (KmerFileReader.mk (Open (concat (map line_chars es) ++ tail)) h) T V
    = Some (map line_record es, r').
Proof.
  intros Hes Hbad. revert T V fuel.
  induction Hes as [| e es He Hes IH]; intros T V fuel Hfuel;
    (destruct fuel as [| fuel]; [cbn in Hfuel; lia |]).
  - cbn [map concat app read_lines].
    destruct (getNext_bad_line W tail h T V Hbad) as [r' ->]. now exists r'.
  - cbn [map concat read_lines]. rewrite <- app_assoc.
    rewrite (getNext_good_line W e _ h T V He).
    destruct (IH (fst (line_record e)) (snd (line_record e)) fuel) as [r' Hr'];
      [cbn in Hfuel; lia |].
    rewrite Hr'. cbn [mbind option_bind].
    exists r'. now destruct (line_record e).
Qed.

Lemma read_lines_until_bad_start_witness :
  exists r',
    @read_lines _ (ConstantLengthKmerHelper_IOHelper 64) 3
      (KmerFileReader.mk
         (Open (concat (map line_chars sample_lines) ++ cstr "#ACGT 4"))
         sample_helper) 0 Indeterminate
    = Some (map line_record sample_lines, r').
Proof.
  apply (read_lines_until_bad_start 64 sample_lines (cstr "#ACGT 4")
           sample_helper 0 Indeterminate 3).
  - repeat constructor; try discriminate; try reflexivity; cbn; lia.
  - reflexivity.
  - cbn. lia.
Defined.

(** ** Paths: when the constructors are defined *)

Lemma c_str_no_NUL mem : no_NUL (c_str mem) = true.
Proof.
  unfold no_NUL. induction mem as [| c mem IH]; [reflexivity |].
  cbn [c_str]. destruct (chr_eqb c NUL) eqn:Hc; [reflexivity |].
  cbn [forallb]. now rewrite Hc, IH.
Qed.

Lemma open_name_c_str stack fname :
  open_name stack fname = open_name stack (c_str fname).
Proof.
  unfold open_name, strcpy.
  now rewrite (c_str_whole (c_str fname) (c_str_no_NUL fname)).
Qed.

(** X12.  The path handling of the three constructors is defined
    exactly for paths of 1 to 1023 characters (counted up to the first
    NUL): the empty path indexes the local array at [strlen - 1], which
    wraps around, and a path of 1024 characters or more overruns the
    array in [strcpy].  Where it is defined, the name passed to [fopen]
    is the path without one final newline. *)
Theorem open_name_defined_iff (stack fname : list ascii) :
  length stack = bufsize ->
  (open_name stack fname = None
   <-> (c_str fname = [] \/ (bufsize <= length (c_str fname))%nat))
  /\ ((0 < length (c_str fname) < bufsize)%nat ->
      open_name stack fname = Some (strip_newline (c_str fname))).
Proof.
  intros Hstack.
  assert (Hsome : (0 < length (c_str fname) < bufsize)%nat ->
                  open_name stack fname = Some (strip_newline (c_str fname))).
  { intros Hlen. rewrite open_name_c_str.
    apply open_name_strip; trivial. apply c_str_no_NUL. }
  split; [| exact Hsome].
  split.
  - intros Hnone.
    destruct (c_str fname) as [| c s] eqn:Es; [now left |].
    destruct (le_lt_dec bufsize (length (c :: s))) as [Hle | Hlt]; [now right |].
    rewrite Hsome in Hnone; [discriminate Hnone | cbn [length] in *; lia].
  - intros [Hempty | Hlong]; unfold open_name, strcpy, strlen.
    + rewrite Hempty, Hstack. cbn [length]. unfold bufsize.
      cbn [Nat.ltb Nat.leb mbind option_bind app c_str chr_eqb NUL].
      reflexivity.
    + destruct (Nat.ltb_spec (length (c_str fname)) (length stack)) as [Hlt | _];
        [lia | reflexivity].
Qed.

Lemma open_name_defined_iff_witness :
  open_name sample_stack (cstr "data.bin" ++ [newline])
  = Some (strip_newline (c_str (cstr "data.bin" ++ [newline]))).
Proof.
  apply (open_name_defined_iff sample_stack (cstr "data.bin" ++ [newline])).
  - reflexivity.
  - change (length (c_str (cstr "data.bin" ++ [newline]))) with 9%nat.
    unfold bufsize. lia.
Defined.

(** ** Human-readable sizes: the two ranges printed from a [double] *)

Lemma put_double_nonempty prec num den : put_double prec num den <> [].
Proof.
  unfold put_double.
  destruct (if 10 ^ prec <=? _ then _ else _) as [m x].
  assert (Hu : forall n, put_uint n <> [])
    by (intros n; apply uint_digits_nonempty; right; discriminate).
  destruct (x <? prec); intros Happ; apply app_eq_nil in Happ as [Happ _];
    now apply Hu in Happ.
Qed.

(** X13.  Above 1024 and up to 10240 the result of [human] is a
    non-empty text without white space followed by ["K"]; above 1048576
    and up to 10485760 it is such a text followed by ["M"]. *)
Theorem human_fraction_ranges (n : Z) :
  (1024 < n <= 10240 ->
   exists body, body <> [] /\ no_space body = true
                /\ human n = string_of_list_ascii (body ++ ["K"%char]))
  /\ (1048576 < n <= 10485760 ->
      exists body, body <> [] /\ no_space body = true
                   /\ human n = string_of_list_ascii (body ++ ["M"%char])).
Proof.
  unfold human. split; intros Hn.
  - destruct (Z.leb_spec n 1024); [lia |].
    destruct (Z.leb_spec n 10240); [| lia].
    eexists. split; [apply put_double_nonempty |].
    split; [apply put_double_no_space |].
    now rewrite extract_suffixed by (trivial; apply put_double_no_space).
  - destruct (Z.leb_spec n 1024); [lia |].
    destruct (Z.leb_spec n 10240); [lia |].
    destruct (Z.leb_spec n 1048576); [lia |].
    destruct (Z.leb_spec n 10485760); [| lia].
    eexists. split; [apply put_double_nonempty |].
    split; [apply put_double_no_space |].
    now rewrite extract_suffixed by (trivial; apply put_double_no_space).
Qed.

Lemma human_fraction_ranges_witness :
  exists body, body <> [] /\ no_space body = true
               /\ human 1536 = string_of_list_ascii (body ++ ["K"%char]).
Proof.
  destruct (human_fraction_ranges 1536) as [HK _]. apply HK. lia.
Defined.
